(* Shallow embedding of src/libs/sdk-core/src/invoice.rs (breez-sdk):
   BOLT11 parsing wrapper, network validation, route-hint conversion and
   the LSP route-hint merge used to rebuild an unsigned invoice.

   Rust strings are modelled as lists of Unicode scalar values (Z), bytes
   as Z in [0, 256), u16/u32/u64 as Z.  The external crates the code calls
   (secp256k1, lightning-invoice) are modelled as far as the code relies on
   them: the elliptic-curve primitives and the bech32/tagged-field parser
   stay abstract (type classes below), the lightning-invoice accessors,
   semantic checks and InvoiceBuilder follow that crate. *)

From Stdlib Require Import ZArith List Bool String Ascii Lia.
Import ListNotations.
Open Scope Z_scope.

(* ------------------------------------------------------------------ *)
(** * Results and the [?] operator *)

Inductive result (A E : Type) : Type :=
| Ok (a : A)
| Err (e : E).
Arguments Ok {A E} a.
Arguments Err {A E} e.

Definition bind {A B E} (m : result A E) (f : A -> result B E) : result B E :=
  match m with Ok a => f a | Err e => Err e end.

(** [map_err] is the [From] conversion performed by Rust's [?]. *)
Definition map_err {A E F} (g : E -> F) (m : result A E) : result A F :=
  match m with Ok a => Ok a | Err e => Err (g e) end.

Notation "'let?' x ':=' m 'in' k" := (bind m (fun x => k))
  (at level 200, x name, m at level 100, k at level 200).

(* ------------------------------------------------------------------ *)
(** * Strings *)

(** A Rust [String]/[&str]: its sequence of Unicode scalar values. *)
Definition rstring := list Z.

Fixpoint of_ascii (s : string) : rstring :=
  match s with
  | EmptyString => []
  | String c r => Z.of_nat (nat_of_ascii c) :: of_ascii r
  end.

Fixpoint str_eqb (a b : rstring) : bool :=
  match a, b with
  | [], [] => true
  | x :: a', y :: b' => (x =? y) && str_eqb a' b'
  | _, _ => false
  end.

(** Number of bytes of the UTF-8 encoding of a scalar value. *)
Definition utf8_width (c : Z) : nat :=
  if c <? 128 then 1 else if c <? 2048 then 2 else if c <? 65536 then 3 else 4.

(** [str::len]: length in bytes. *)
Definition str_len (s : rstring) : nat :=
  fold_right (fun c n => (utf8_width c + n)%nat) 0%nat s.

(** [char::is_whitespace]: the Unicode White_Space property. *)
Definition is_whitespace (c : Z) : bool :=
  ((9 <=? c) && (c <=? 13)) || (c =? 32) || (c =? 133) || (c =? 160)
  || (c =? 5760) || ((8192 <=? c) && (c <=? 8202)) || (c =? 8232)
  || (c =? 8233) || (c =? 8239) || (c =? 8287) || (c =? 12288).

Fixpoint trim_start (s : rstring) : rstring :=
  match s with
  | c :: r => if is_whitespace c then trim_start r else s
  | [] => []
  end.

(** [str::trim]. *)
Definition trim (s : rstring) : rstring := rev (trim_start (rev (trim_start s))).

Definition is_empty (s : rstring) : bool :=
  match s with [] => true | _ => false end.

(** Lower-case hexadecimal, as [hex::ToHex::encode_hex::<String>]:
    [byte2hex] looks up [(byte & 0xf0) >> 4] and [byte & 0x0f] in the
    table "0123456789abcdef". *)
Definition hex_digit (n : Z) : Z := if n <? 10 then 48 + n else 87 + n.

Fixpoint encode_hex (bs : list Z) : rstring :=
  match bs with
  | [] => []
  | b :: r => hex_digit (Z.shiftr (Z.land b 240) 4) :: hex_digit (Z.land b 15) :: encode_hex r
  end.

(* ------------------------------------------------------------------ *)
(** * secp256k1 *)

(** A public key, identified by its 33-byte compressed serialization
    ([PublicKey::serialize]). *)
Record PublicKey := mkPublicKey { serialize : list Z }.

(** [secp256k1::Error] as returned by key parsing. *)
Inductive SecpError := InvalidPublicKey.

(** The two errors key recovery can report ([secp256k1::Error::
    InvalidSignature] and [InvalidRecoveryId]). *)
Inductive RecoveryError := RecInvalidSignature | RecInvalidRecoveryId.

(** The curve primitives the code reaches through the secp256k1 crate.
    [pk_parse] is [PublicKey::from_slice] (33- or 65-byte encodings; it
    returns the compressed serialization of a valid point),
    [ecdsa_recover] recovers a key from a 32-byte digest, a 64-byte compact
    signature and a recovery id, [ecdsa_verify] checks a signature. *)
Class Secp256k1 := {
  pk_parse : list Z -> option (list Z);
  ecdsa_recover : list Z -> list Z -> Z -> result PublicKey RecoveryError;
  ecdsa_verify : list Z -> list Z -> PublicKey -> bool
}.

(** [from_hex] of the secp256k1 crate: case-insensitive hex into a
    65-byte buffer; the bytes written, in order. *)
Definition hex_val (c : Z) : option Z :=
  if (65 <=? c) && (c <=? 70) then Some (c - 65 + 10)
  else if (97 <=? c) && (c <=? 102) then Some (c - 97 + 10)
  else if (48 <=? c) && (c <=? 57) then Some (c - 48)
  else None.

Fixpoint from_hex_loop (s : rstring) (b : Z) (idx : nat) (acc : list Z)
  : option (list Z) :=
  match s with
  | [] => Some (rev acc)
  | c :: r =>
      match hex_val c with
      | None => None
      | Some v =>
          let b' := Z.lor (Z.land (Z.shiftl b 4) 255) v in
          if Nat.odd idx then from_hex_loop r 0 (S idx) (b' :: acc)
          else from_hex_loop r b' (S idx) acc
      end
  end.

Definition from_hex (s : rstring) : option (list Z) :=
  if Nat.odd (str_len s) || (130 <? str_len s)%nat then None
  else from_hex_loop s 0 0 [].

Section Secp.
Context `{Secp256k1}.

Definition from_slice (bs : list Z) : result PublicKey SecpError :=
  match pk_parse bs with
  | Some k => Ok (mkPublicKey k)
  | None => Err InvalidPublicKey
  end.

(** [impl FromStr for PublicKey]. *)
Definition pubkey_from_str (s : rstring) : result PublicKey SecpError :=
  match from_hex s with
  | Some bs =>
      if (List.length bs =? 33)%nat then from_slice bs
      else if (List.length bs =? 65)%nat then from_slice bs
      else Err InvalidPublicKey
  | None => Err InvalidPublicKey
  end.

End Secp.

(* ------------------------------------------------------------------ *)
(** * Errors *)

(** [lightning_invoice::ParseError] (bech32, hrp, tagged fields, signature). *)
Inductive ParseError :=
| Bech32Error | ParseAmountError | MalformedSignature | BadPrefix
| UnknownCurrency | UnknownSiPrefix | MalformedHRP | TooShortDataPart
| UnexpectedEndOfTaggedFields | DescriptionDecodeError | PaddingError
| IntegerOverflowError | InvalidSegWitProgramLength | InvalidPubKeyHashLength
| InvalidScriptHashLength | ParseInvalidRecoveryId | InvalidSliceLength
| Skip.

(** [lightning_invoice::SemanticError]. *)
Inductive SemanticError :=
| NoPaymentHash | MultiplePaymentHashes | NoDescription | MultipleDescriptions
| NoPaymentSecret | MultiplePaymentSecrets | InvalidFeatures
| InvalidRecoveryId | InvalidSignature | ImpreciseAmount.

(** [lightning_invoice::CreationError]. *)
Inductive CreationError :=
| DescriptionTooLong | RouteTooLong | TimestampOutOfBounds | InvalidAmount
| MissingRouteHints.

(** The [anyhow::Error] payload of an [InvoiceError]: either a message of
    this file ([anyhow!]) or the wrapped error of a [From] conversion. *)
Inductive ErrorCause :=
| Msg (m : string)
| FromParse (e : ParseError)
| FromSemantic (e : SemanticError)
| FromCreation (e : CreationError)
| FromSecp (e : SecpError)
| FromSystemTime
| FromRegex.

(** [enum InvoiceError]. *)
Inductive InvoiceError :=
| Generic (c : ErrorCause)
| InvalidNetwork (c : ErrorCause)
| Validation (c : ErrorCause).

Definition InvoiceResult (A : Type) := result A InvoiceError.

(** The [From] impls of [InvoiceError]. *)
Definition from_parse_error (e : ParseError) : InvoiceError := Validation (FromParse e).
Definition from_semantic_error (e : SemanticError) : InvoiceError := Validation (FromSemantic e).
Definition from_creation_error (e : CreationError) : InvoiceError := Generic (FromCreation e).
Definition from_secp_error (e : SecpError) : InvoiceError := Generic (FromSecp e).

(* ------------------------------------------------------------------ *)
(** * Route hints *)

(** [lightning::routing::gossip::RoutingFees]. *)
Record RoutingFees := mkRoutingFees {
  base_msat : Z;                 (* u32 *)
  proportional_millionths : Z    (* u32 *)
}.

(** [lightning::routing::router::RouteHintHop]. *)
Record LdkRouteHintHop := mkLdkRouteHintHop {
  ldk_src_node_id : PublicKey;
  ldk_short_channel_id : Z;      (* u64 *)
  ldk_fees : RoutingFees;
  ldk_cltv_expiry_delta : Z;     (* u16 *)
  ldk_htlc_minimum_msat : option Z;
  ldk_htlc_maximum_msat : option Z
}.

(** [lightning::routing::router::RouteHint], a tuple struct over its hops. *)
Record LdkRouteHint := mkLdkRouteHint { ldk_hops : list LdkRouteHintHop }.

(** [struct RouteHintHop] of this crate. *)
Record RouteHintHop := mkRouteHintHop {
  src_node_id : rstring;
  short_channel_id : Z;          (* u64 *)
  fees_base_msat : Z;            (* u32 *)
  fees_proportional_millionths : Z;  (* u32 *)
  cltv_expiry_delta : Z;         (* u64 *)
  htlc_minimum_msat : option Z;
  htlc_maximum_msat : option Z
}.

(** [struct RouteHint] of this crate. *)
Record RouteHint := mkRouteHint { hops : list RouteHintHop }.

(** [hop.cltv_expiry_delta as u16]: truncation to the low 16 bits. *)
Definition as_u16 (x : Z) : Z := x mod 2 ^ 16.

Section RouteHints.
Context `{Secp256k1}.

(** The body of the loop of [RouteHint::to_ldk_hint] for one hop. *)
Definition hop_to_ldk (hop : RouteHintHop) : InvoiceResult LdkRouteHintHop :=
  let? pubkey_res := map_err from_secp_error (pubkey_from_str (src_node_id hop)) in
  Ok {| ldk_src_node_id := pubkey_res;
        ldk_short_channel_id := short_channel_id hop;
        ldk_fees := {| base_msat := fees_base_msat hop;
                       proportional_millionths := fees_proportional_millionths hop |};
        ldk_cltv_expiry_delta := as_u16 (cltv_expiry_delta hop);
        ldk_htlc_minimum_msat := htlc_minimum_msat hop;
        ldk_htlc_maximum_msat := htlc_maximum_msat hop |}.

Fixpoint hops_to_ldk (hs : list RouteHintHop) : InvoiceResult (list LdkRouteHintHop) :=
  match hs with
  | [] => Ok []
  | hop :: rest =>
      let? router_hop := hop_to_ldk hop in
      let? tl := hops_to_ldk rest in
      Ok (router_hop :: tl)
  end.

(** [RouteHint::to_ldk_hint]. *)
Definition to_ldk_hint (rh : RouteHint) : InvoiceResult LdkRouteHint :=
  let? hs := hops_to_ldk (hops rh) in Ok (mkLdkRouteHint hs).

End RouteHints.

(** [RouteHint::from_ldk_hint]. *)
Definition hop_from_ldk (hop : LdkRouteHintHop) : RouteHintHop :=
  {| src_node_id := encode_hex (serialize (ldk_src_node_id hop));
     short_channel_id := ldk_short_channel_id hop;
     fees_base_msat := base_msat (ldk_fees hop);
     fees_proportional_millionths := proportional_millionths (ldk_fees hop);
     cltv_expiry_delta := ldk_cltv_expiry_delta hop;
     htlc_minimum_msat := ldk_htlc_minimum_msat hop;
     htlc_maximum_msat := ldk_htlc_maximum_msat hop |}.

Definition from_ldk_hint (hint : LdkRouteHint) : RouteHint :=
  mkRouteHint (map hop_from_ldk (ldk_hops hint)).

(* ------------------------------------------------------------------ *)
(** * The LSP route-hint merge (add_lsp_routing_hints, lines 169-192) *)

(** The inner closure of the filter: [hop] keeps its hint only if its key,
    as lower-case hex, differs from every LSP hop's [src_node_id]. *)
Definition hop_avoids (lsp_hint : RouteHint) (hop : LdkRouteHintHop) : bool :=
  forallb (fun lsp_hop =>
             negb (str_eqb (encode_hex (serialize (ldk_src_node_id hop)))
                           (src_node_id lsp_hop)))
          (hops lsp_hint).

Section Merge.
Context `{Secp256k1}.

(** [unique_hop_hints]. *)
Definition merge_hints (route_hints : list LdkRouteHint) (include_route_hints : bool)
    (lsp_hint : option RouteHint) : InvoiceResult (list LdkRouteHint) :=
  match lsp_hint with
  | None => Ok route_hints
  | Some lsp_hint =>
      if include_route_hints then
        let all_hints :=
          filter (fun hint => forallb (hop_avoids lsp_hint) (ldk_hops hint)) route_hints in
        let? h := to_ldk_hint lsp_hint in
        Ok (all_hints ++ [h])
      else
        let? h := to_ldk_hint lsp_hint in
        Ok [h]
  end.

End Merge.

(* ------------------------------------------------------------------ *)
(** * lightning-invoice: raw and signed invoices *)

(** [lightning_invoice::Currency]. *)
Inductive Currency := CurBitcoin | CurBitcoinTestnet | CurRegtest | CurSimnet | CurSignet.

(** [bitcoin::Network]. *)
Inductive BtcNetwork := BtcBitcoin | BtcTestnet | BtcSignet | BtcRegtest.

(** [crate::Network]. *)
Inductive Network := Bitcoin | Testnet | Signet | Regtest.

(** [impl From<Currency> for bitcoin::Network]. *)
Definition btc_network_of_currency (c : Currency) : BtcNetwork :=
  match c with
  | CurBitcoin => BtcBitcoin
  | CurBitcoinTestnet => BtcTestnet
  | CurRegtest => BtcRegtest
  | CurSimnet => BtcRegtest
  | CurSignet => BtcSignet
  end.

(** [impl From<bitcoin::Network> for crate::Network]. *)
Definition network_of_btc (n : BtcNetwork) : Network :=
  match n with
  | BtcBitcoin => Bitcoin
  | BtcTestnet => Testnet
  | BtcSignet => Signet
  | BtcRegtest => Regtest
  end.

Definition network_eqb (a b : Network) : bool :=
  match a, b with
  | Bitcoin, Bitcoin | Testnet, Testnet | Signet, Signet | Regtest, Regtest => true
  | _, _ => false
  end.

(** [TaggedField]; hashes and secrets are byte lists, [Features] the list
    of feature bits set. *)
Inductive TaggedField :=
| PaymentHash (h : list Z)
| Description (d : rstring)
| PayeePubKey (k : PublicKey)
| DescriptionHash (h : list Z)
| ExpiryTime (secs : Z)
| MinFinalCltvExpiryDelta (d : Z)
| Fallback (f : list Z)
| Features (bits : list Z)
| PrivateRoute (r : LdkRouteHint)
| PaymentSecret (s : list Z).

Inductive RawTaggedField :=
| KnownSemantics (t : TaggedField)
| UnknownSemantics (data : list Z).

(** [RawHrp]; the raw amount and its SI prefix are kept as the pico-BTC
    amount they denote ([RawInvoice::amount_pico_btc]). *)
Record RawHrp := mkRawHrp { currency : Currency; raw_amount_pico : option Z }.

Record RawDataPart := mkRawDataPart { raw_timestamp : Z; tagged_fields : list RawTaggedField }.

(** [RawInvoice]: an invoice without signature. *)
Record RawInvoice := mkRawInvoice { hrp : RawHrp; data : RawDataPart }.

(** [SignedRawInvoice]: the raw invoice, the digest it was signed over,
    the 64-byte compact signature and the recovery id. *)
Record SignedRawInvoice := mkSignedRawInvoice {
  raw_invoice : RawInvoice;
  hash : list Z;
  signature : list Z;
  recovery_id : Z
}.

(** [Invoice]: a [SignedRawInvoice] that passed the semantic checks. *)
Record Invoice := mkInvoice { signed_invoice : SignedRawInvoice }.

Inductive InvoiceDescription :=
| Direct (d : rstring)
| Hash (h : list Z).

(** The bech32 / human-readable-part / tagged-field decoder
    ([impl FromStr for SignedRawInvoice]) and the feature-bit test of
    [check_feature_bits] stay abstract. *)
Class Bolt11Parser := {
  signed_from_str : rstring -> result SignedRawInvoice ParseError;
  features_supported : list Z -> bool
}.

Definition known_tagged_fields (raw : RawInvoice) : list TaggedField :=
  flat_map (fun f => match f with KnownSemantics t => [t] | UnknownSemantics _ => [] end)
           (tagged_fields (data raw)).

(** [find_extract!] and [find_all_extract!]. *)
Fixpoint find_extract {A} (f : TaggedField -> option A) (l : list TaggedField) : option A :=
  match l with
  | [] => None
  | t :: r => match f t with Some a => Some a | None => find_extract f r end
  end.

Fixpoint find_all_extract {A} (f : TaggedField -> option A) (l : list TaggedField) : list A :=
  match l with
  | [] => []
  | t :: r => match f t with Some a => a :: find_all_extract f r | None => find_all_extract f r end
  end.

Definition raw_payment_hash (raw : RawInvoice) : option (list Z) :=
  find_extract (fun t => match t with PaymentHash h => Some h | _ => None end) (known_tagged_fields raw).
Definition raw_description (raw : RawInvoice) : option rstring :=
  find_extract (fun t => match t with Description d => Some d | _ => None end) (known_tagged_fields raw).
Definition raw_payee_pub_key (raw : RawInvoice) : option PublicKey :=
  find_extract (fun t => match t with PayeePubKey k => Some k | _ => None end) (known_tagged_fields raw).
Definition raw_description_hash (raw : RawInvoice) : option (list Z) :=
  find_extract (fun t => match t with DescriptionHash h => Some h | _ => None end) (known_tagged_fields raw).
Definition raw_expiry_time (raw : RawInvoice) : option Z :=
  find_extract (fun t => match t with ExpiryTime e => Some e | _ => None end) (known_tagged_fields raw).
Definition raw_min_final_cltv_expiry_delta (raw : RawInvoice) : option Z :=
  find_extract (fun t => match t with MinFinalCltvExpiryDelta d => Some d | _ => None end) (known_tagged_fields raw).
Definition raw_payment_secret (raw : RawInvoice) : option (list Z) :=
  find_extract (fun t => match t with PaymentSecret s => Some s | _ => None end) (known_tagged_fields raw).
Definition raw_features (raw : RawInvoice) : option (list Z) :=
  find_extract (fun t => match t with Features f => Some f | _ => None end) (known_tagged_fields raw).
Definition raw_private_routes (raw : RawInvoice) : list LdkRouteHint :=
  find_all_extract (fun t => match t with PrivateRoute r => Some r | _ => None end) (known_tagged_fields raw).
(** [RawInvoice::fallbacks]. *)
Definition raw_fallbacks (raw : RawInvoice) : list (list Z) :=
  find_all_extract (fun t => match t with Fallback f => Some f | _ => None end) (known_tagged_fields raw).

Definition DEFAULT_EXPIRY_TIME : Z := 3600.
Definition DEFAULT_MIN_FINAL_CLTV_EXPIRY_DELTA : Z := 18.

(** [Invoice]'s accessors. Where the crate calls [expect] on a field that
    [Invoice::from_signed] has checked to be present, the model returns a
    placeholder in the unreachable case. *)
Definition invoice_raw (inv : Invoice) : RawInvoice := raw_invoice (signed_invoice inv).
Definition invoice_currency (inv : Invoice) : Currency := currency (hrp (invoice_raw inv)).
Definition invoice_network (inv : Invoice) : BtcNetwork :=
  btc_network_of_currency (invoice_currency inv).
(** [amount_milli_satoshis]: [self.amount_pico_btc().map(|v| v / 10)]. *)
Definition invoice_amount_milli_satoshis (inv : Invoice) : option Z :=
  option_map (fun v => v / 10) (raw_amount_pico (hrp (invoice_raw inv))).
(** [Invoice::timestamp] as seconds relative to [UNIX_EPOCH]. *)
Definition invoice_timestamp (inv : Invoice) : Z := raw_timestamp (data (invoice_raw inv)).
Definition invoice_payment_hash (inv : Invoice) : list Z :=
  match raw_payment_hash (invoice_raw inv) with Some h => h | None => [] end.
Definition invoice_description (inv : Invoice) : InvoiceDescription :=
  match raw_description (invoice_raw inv) with
  | Some d => Direct d
  | None =>
      match raw_description_hash (invoice_raw inv) with
      | Some h => Hash h
      | None => Direct []   (* unreachable!: ensured by check_field_counts *)
      end
  end.
Definition invoice_expiry_time (inv : Invoice) : Z :=
  match raw_expiry_time (invoice_raw inv) with Some e => e | None => DEFAULT_EXPIRY_TIME end.
Definition invoice_min_final_cltv_expiry_delta (inv : Invoice) : Z :=
  match raw_min_final_cltv_expiry_delta (invoice_raw inv) with
  | Some d => d
  | None => DEFAULT_MIN_FINAL_CLTV_EXPIRY_DELTA
  end.
Definition invoice_payment_secret (inv : Invoice) : list Z :=
  match raw_payment_secret (invoice_raw inv) with Some s => s | None => [] end.
Definition invoice_route_hints (inv : Invoice) : list LdkRouteHint :=
  raw_private_routes (invoice_raw inv).
Definition invoice_payee_pub_key (inv : Invoice) : option PublicKey :=
  raw_payee_pub_key (invoice_raw inv).

Section Signature.
Context `{Secp256k1}.

(** [SignedRawInvoice::recover_payee_pub_key]. *)
Definition signed_recover_payee_pub_key (s : SignedRawInvoice) : result PublicKey RecoveryError :=
  ecdsa_recover (hash s) (signature s) (recovery_id s).

(** [SignedRawInvoice::check_signature]: verification against the [n]
    field when there is one. *)
Definition signed_check_signature (s : SignedRawInvoice) : bool :=
  match raw_payee_pub_key (raw_invoice s) with
  | Some pk => ecdsa_verify (hash s) (signature s) pk
  | None => true
  end.

(** [Invoice::check_signature]. *)
Definition invoice_check_signature (inv : Invoice) : result unit SemanticError :=
  match signed_recover_payee_pub_key (signed_invoice inv) with
  | Err RecInvalidRecoveryId => Err InvalidRecoveryId
  | Err RecInvalidSignature => Err InvalidSignature
  | Ok _ =>
      if negb (signed_check_signature (signed_invoice inv)) then Err InvalidSignature
      else Ok tt
  end.

(** [Invoice::recover_payee_pub_key] ([expect]: checked by the constructor). *)
Definition invoice_recover_payee_pub_key (inv : Invoice) : PublicKey :=
  match signed_recover_payee_pub_key (signed_invoice inv) with
  | Ok k => k
  | Err _ => mkPublicKey []
  end.

End Signature.

Definition count_fields (p : TaggedField -> bool) (raw : RawInvoice) : nat :=
  List.length (filter p (known_tagged_fields raw)).

(** [Invoice::check_field_counts] (with [check_payment_secret]). *)
Definition check_field_counts (inv : Invoice) : result unit SemanticError :=
  let raw := invoice_raw inv in
  let payment_hash_cnt :=
    count_fields (fun t => match t with PaymentHash _ => true | _ => false end) raw in
  if (payment_hash_cnt <? 1)%nat then Err NoPaymentHash
  else if (1 <? payment_hash_cnt)%nat then Err MultiplePaymentHashes
  else
  let description_cnt :=
    count_fields (fun t => match t with Description _ | DescriptionHash _ => true | _ => false end) raw in
  if (description_cnt <? 1)%nat then Err NoDescription
  else if (1 <? description_cnt)%nat then Err MultipleDescriptions
  else
  let payment_secret_cnt :=
    count_fields (fun t => match t with PaymentSecret _ => true | _ => false end) raw in
  if (payment_secret_cnt <? 1)%nat then Err NoPaymentSecret
  else if (1 <? payment_secret_cnt)%nat then Err MultiplePaymentSecrets
  else Ok tt.

Section FromSigned.
Context `{Secp256k1} `{Bolt11Parser}.

(** [Invoice::check_feature_bits]. *)
Definition check_feature_bits (inv : Invoice) : result unit SemanticError :=
  match raw_features (invoice_raw inv) with
  | None => Err InvalidFeatures
  | Some f => if features_supported f then Ok tt else Err InvalidFeatures
  end.

(** [Invoice::check_amount]: no fraction of a millisatoshi. *)
Definition check_amount (inv : Invoice) : result unit SemanticError :=
  match raw_amount_pico (hrp (invoice_raw inv)) with
  | Some amount_pico_btc => if amount_pico_btc mod 10 =? 0 then Ok tt else Err ImpreciseAmount
  | None => Ok tt
  end.

(** [Invoice::from_signed]. *)
Definition from_signed (signed : SignedRawInvoice) : result Invoice SemanticError :=
  let invoice := mkInvoice signed in
  let? _ := check_field_counts invoice in
  let? _ := check_feature_bits invoice in
  let? _ := invoice_check_signature invoice in
  let? _ := check_amount invoice in
  Ok invoice.

End FromSigned.

(* ------------------------------------------------------------------ *)
(** * lightning-invoice: InvoiceBuilder *)

Record InvoiceBuilder := mkInvoiceBuilder {
  b_currency : Currency;
  b_amount : option Z;           (* pico-BTC *)
  b_timestamp : option Z;
  b_tagged_fields : list TaggedField;
  b_error : option CreationError
}.

Definition builder_new (c : Currency) : InvoiceBuilder := mkInvoiceBuilder c None None [] None.

Definition builder_push (t : TaggedField) (b : InvoiceBuilder) : InvoiceBuilder :=
  mkInvoiceBuilder (b_currency b) (b_amount b) (b_timestamp b) (b_tagged_fields b ++ [t]) (b_error b).

Definition builder_fail (e : CreationError) (b : InvoiceBuilder) : InvoiceBuilder :=
  mkInvoiceBuilder (b_currency b) (b_amount b) (b_timestamp b) (b_tagged_fields b) (Some e).

(** [description] ([Description::new]: at most 639 bytes). *)
Definition builder_description (d : rstring) (b : InvoiceBuilder) : InvoiceBuilder :=
  if (639 <? str_len d)%nat then builder_fail DescriptionTooLong b
  else builder_push (Description d) b.

Definition builder_description_hash (h : list Z) (b : InvoiceBuilder) : InvoiceBuilder :=
  builder_push (DescriptionHash h) b.

Definition builder_invoice_description (d : InvoiceDescription) (b : InvoiceBuilder) : InvoiceBuilder :=
  match d with
  | Direct s => builder_description s b
  | Hash h => builder_description_hash h b
  end.

Definition builder_payment_hash (h : list Z) (b : InvoiceBuilder) : InvoiceBuilder :=
  builder_push (PaymentHash h) b.

(** [timestamp] ([PositiveTimestamp::from_system_time]). *)
Definition MAX_TIMESTAMP : Z := 2 ^ 35 - 1.
Definition builder_timestamp (t : Z) (b : InvoiceBuilder) : InvoiceBuilder :=
  if (0 <=? t) && (t <=? MAX_TIMESTAMP) then
    mkInvoiceBuilder (b_currency b) (b_amount b) (Some t) (b_tagged_fields b) (b_error b)
  else builder_fail TimestampOutOfBounds b.

Definition U64_MAX : Z := 2 ^ 64 - 1.

(** [amount_milli_satoshis]: [let amount = amount_msat * 10;] in u64, then
    the largest SI prefix dividing [amount]; the prefix and raw amount
    together denote [amount] pico-BTC. The multiplication wraps modulo
    2^64 as in a release build (a debug build panics instead, when
    [amount_msat > u64::MAX / 10]). *)
Definition builder_amount_milli_satoshis (amount_msat : Z) (b : InvoiceBuilder) : InvoiceBuilder :=
  let amount := (amount_msat * 10) mod 2 ^ 64 in
  mkInvoiceBuilder (b_currency b) (Some amount) (b_timestamp b) (b_tagged_fields b) (b_error b).

Definition builder_expiry_time (secs : Z) (b : InvoiceBuilder) : InvoiceBuilder :=
  builder_push (ExpiryTime secs) b.

(** Feature bits 8 (var_onion_optin) and 14 (payment_secret), required. *)
Definition set_bit (n : Z) (f : list Z) : list Z := if existsb (Z.eqb n) f then f else f ++ [n].
Definition payment_secret_features (f : list Z) : list Z := set_bit 14 (set_bit 8 f).

(** [payment_secret]: also sets the required feature bits. *)
Definition builder_payment_secret (s : list Z) (b : InvoiceBuilder) : InvoiceBuilder :=
  let found_features := existsb (fun t => match t with Features _ => true | _ => false end)
                                (b_tagged_fields b) in
  let fields := map (fun t => match t with Features f => Features (payment_secret_features f) | _ => t end)
                    (b_tagged_fields b) in
  let fields := fields ++ [PaymentSecret s] in
  let fields := if found_features then fields else fields ++ [Features (payment_secret_features [])] in
  mkInvoiceBuilder (b_currency b) (b_amount b) (b_timestamp b) fields (b_error b).

Definition builder_min_final_cltv_expiry_delta (d : Z) (b : InvoiceBuilder) : InvoiceBuilder :=
  builder_push (MinFinalCltvExpiryDelta d) b.

(** [private_route] ([PrivateRoute::new]: at most 12 hops). *)
Definition builder_private_route (hint : LdkRouteHint) (b : InvoiceBuilder) : InvoiceBuilder :=
  if (List.length (ldk_hops hint) <=? 12)%nat then builder_push (PrivateRoute hint) b
  else builder_fail RouteTooLong b.

(** [build_raw]; the timestamp is always set by the type state, the model
    uses 0 in the unreachable case. *)
Definition build_raw (b : InvoiceBuilder) : result RawInvoice CreationError :=
  match b_error b with
  | Some e => Err e
  | None =>
      Ok (mkRawInvoice (mkRawHrp (b_currency b) (b_amount b))
                       (mkRawDataPart (match b_timestamp b with Some t => t | None => 0 end)
                                      (map KnownSemantics (b_tagged_fields b))))
  end.

(* ------------------------------------------------------------------ *)
(** * invoice.rs *)

(** [struct LNInvoice]. *)
Record LNInvoice := mkLNInvoice {
  bolt11 : rstring;
  network : Network;
  payee_pubkey : rstring;
  payment_hash : rstring;
  description : option rstring;
  description_hash : option rstring;
  amount_msat : option Z;
  timestamp : Z;
  expiry : Z;
  routing_hints : list RouteHint;
  payment_secret : list Z;
  min_final_cltv_expiry_delta : Z
}.

Section InvoiceRs.
Context `{Secp256k1} `{Bolt11Parser}.

(** The builder chain of [add_lsp_routing_hints] (lines 157-164). *)
Definition reconstruction_builder (invoice : Invoice) (new_amount_msats : Z) : InvoiceBuilder :=
  builder_min_final_cltv_expiry_delta (invoice_min_final_cltv_expiry_delta invoice)
  (builder_payment_secret (invoice_payment_secret invoice)
  (builder_expiry_time (invoice_expiry_time invoice)
  (builder_amount_milli_satoshis new_amount_msats
  (builder_timestamp (invoice_timestamp invoice)
  (builder_payment_hash (invoice_payment_hash invoice)
  (builder_invoice_description (invoice_description invoice)
  (builder_new (invoice_currency invoice)))))))).

(** [add_lsp_routing_hints]. *)
Definition add_lsp_routing_hints (invoice : rstring) (include_route_hints : bool)
    (lsp_hint : option RouteHint) (new_amount_msats : Z) : InvoiceResult RawInvoice :=
  let? signed := map_err from_parse_error (signed_from_str invoice) in
  let? invoice := map_err from_semantic_error (from_signed signed) in
  let invoice_builder := reconstruction_builder invoice new_amount_msats in
  let? unique_hop_hints := merge_hints (invoice_route_hints invoice) include_route_hints lsp_hint in
  let invoice_builder :=
    fold_left (fun b hint => builder_private_route hint b) unique_hop_hints invoice_builder in
  map_err from_creation_error (build_raw invoice_builder).

End InvoiceRs.

(** [validate_network]. *)
Definition validate_network (invoice : LNInvoice) (n : Network) : InvoiceResult unit :=
  if network_eqb (network invoice) n then Ok tt
  else Err (InvalidNetwork (Msg "Invoice network does not match config")).

(** One character of the pattern [(?i)lightning:] against one input
    character. The letters l, i, g, h, t, n have no case variants outside
    ASCII under Unicode simple case folding, so a lower-case pattern letter
    matches itself and its ASCII upper case; ':' matches itself. *)
Definition ci_char_matches (p c : Z) : bool :=
  (c =? p) || ((97 <=? p) && (p <=? 122) && (c =? p - 32)).

Fixpoint ci_prefix (pat s : rstring) : bool :=
  match pat, s with
  | [], _ => true
  | p :: pat', c :: s' => ci_char_matches p c && ci_prefix pat' s'
  | _ :: _, [] => false
  end.

Definition lightning_scheme : rstring := of_ascii "lightning:".

(** [Regex::new(r"(?i)^lightning:")?.replace_all(bolt11, "")]: the anchor
    [^] only matches at the start of the text, so at most the one leading
    marker is removed. (The constant pattern always compiles.) *)
Definition strip_lightning_scheme (s : rstring) : rstring :=
  if ci_prefix lightning_scheme s then skipn (List.length lightning_scheme) s else s.

(** [invoice.timestamp().duration_since(UNIX_EPOCH)?] in seconds. *)
Definition duration_since_epoch (t : Z) : InvoiceResult Z :=
  if 0 <=? t then Ok t else Err (Generic FromSystemTime).

Section ParseInvoice.
Context `{Secp256k1} `{Bolt11Parser}.

(** [parse_invoice]. *)
Definition parse_invoice (bolt11_in : rstring) : InvoiceResult LNInvoice :=
  if is_empty (trim bolt11_in) then Err (Validation (Msg "bolt11 is an empty string"))
  else
  let bolt11_s := strip_lightning_scheme bolt11_in in
  let? signed := map_err from_parse_error (signed_from_str bolt11_s) in
  let? invoice := map_err from_semantic_error (from_signed signed) in
  let? since_the_epoch := duration_since_epoch (invoice_timestamp invoice) in
  let? _ := map_err from_semantic_error (invoice_check_signature invoice) in
  let payee_pubkey :=
    match invoice_payee_pub_key invoice with
    | Some key => encode_hex (serialize key)
    | None => encode_hex (serialize (invoice_recover_payee_pub_key invoice))
    end in
  let converted_hints := map from_ldk_hint (invoice_route_hints invoice) in
  Ok {| bolt11 := bolt11_s;
        network := network_of_btc (invoice_network invoice);
        payee_pubkey := payee_pubkey;
        expiry := invoice_expiry_time invoice;
        amount_msat := invoice_amount_milli_satoshis invoice;
        timestamp := since_the_epoch;
        routing_hints := converted_hints;
        payment_hash := encode_hex (invoice_payment_hash invoice);
        payment_secret := invoice_payment_secret invoice;
        description :=
          match invoice_description invoice with
          | Direct msg => Some msg
          | Hash _ => None
          end;
        description_hash :=
          match invoice_description invoice with
          | Direct _ => None
          | Hash h => Some (encode_hex h)
          end;
        min_final_cltv_expiry_delta := invoice_min_final_cltv_expiry_delta invoice |}.

End ParseInvoice.

(* ------------------------------------------------------------------ *)
(** * Concrete instances for evaluation *)

(** A stand-in for the curve, used only to run the model on concrete
    inputs: a 33-byte string with prefix 02 or 03 is a valid key, and
    recovery returns 02 followed by the first half of the signature. *)
Definition example_secp : Secp256k1 := {|
  pk_parse := fun b =>
    match b with
    | p :: _ => if (List.length b =? 33)%nat && ((p =? 2) || (p =? 3)) then Some b else None
    | [] => None
    end;
  ecdsa_recover := fun _ sig recid =>
    if (recid <? 0) || (3 <? recid) then Err RecInvalidRecoveryId
    else if (List.length sig =? 64)%nat then Ok (mkPublicKey (2 :: firstn 32 sig))
    else Err RecInvalidSignature;
  ecdsa_verify := fun _ sig pk => str_eqb (serialize pk) (2 :: firstn 32 sig)
|}.

Definition node_a : PublicKey := mkPublicKey (2 :: repeat 171 32).
Definition node_b : PublicKey := mkPublicKey (3 :: repeat 205 32).

Definition ldk_hop_via (k : PublicKey) (scid : Z) : LdkRouteHintHop :=
  mkLdkRouteHintHop k scid (mkRoutingFees 1000 100) 40 None None.

(** A decoded invoice: payment hash, description, payment secret,
    features and two private routes, one through [node_a] (the payee
    itself) and one through [node_b]; no [n] field, so the payee key is
    recovered from the signature. *)
Definition example_signed : SignedRawInvoice :=
  mkSignedRawInvoice
    (mkRawInvoice (mkRawHrp CurBitcoin (Some 110000))
       (mkRawDataPart 1667000000
          (map KnownSemantics
             [PaymentHash (repeat 1 32); Description (of_ascii "coffee");
              PaymentSecret (repeat 2 32); Features [8; 14];
              PrivateRoute (mkLdkRouteHint [ldk_hop_via node_a 7]);
              PrivateRoute (mkLdkRouteHint [ldk_hop_via node_b 8]);
              ExpiryTime 600])))
    (repeat 7 32) (repeat 171 64) 0.

(** A decoder that accepts text starting with "lnbc" (as [example_signed])
    and rejects anything else as a bech32 error. *)
Definition example_parser : Bolt11Parser := {|
  signed_from_str := fun s =>
    if ci_prefix (of_ascii "lnbc") s then Ok example_signed else Err Bech32Error;
  features_supported := fun _ => true
|}.

Definition example_bolt11 : rstring := of_ascii "lnbc110n1p38q3gtpp5ypz09jrd8p993snjwnm68cph4ftwp".

(** The LSP route hint of the crate's tests: one hop from [node], short
    channel id 1234, fees 1000 msat + 100 ppm, HTLC bounds 3000/4000. *)
Definition test_lsp_hint (node : rstring) (cltv : Z) : RouteHint :=
  mkRouteHint [mkRouteHintHop node 1234 1000 100 cltv (Some 3000) (Some 4000)].

(** [str::to_ascii_uppercase]. *)
Definition ascii_uppercase (s : rstring) : rstring :=
  map (fun c => if (97 <=? c) && (c <=? 122) then c - 32 else c) s.

(** A route hint with every hop's [src_node_id] in ASCII upper case. *)
Definition uppercase_node_ids (rh : RouteHint) : RouteHint :=
  mkRouteHint (map (fun hop =>
    {| src_node_id := ascii_uppercase (src_node_id hop);
       short_channel_id := short_channel_id hop;
       fees_base_msat := fees_base_msat hop;
       fees_proportional_millionths := fees_proportional_millionths hop;
       cltv_expiry_delta := cltv_expiry_delta hop;
       htlc_minimum_msat := htlc_minimum_msat hop;
       htlc_maximum_msat := htlc_maximum_msat hop |}) (hops rh)).

(** The LSP hint of the crate's tests through the payee [node_a], its key
    in lower-case hex. *)
Definition node_a_lsp : RouteHint := test_lsp_hint (encode_hex (serialize node_a)) 2000.

(** An LSP hint of 13 hops through [node_a], one more than a private
    route may have. *)
Definition long_lsp_hint : RouteHint :=
  mkRouteHint (repeat (mkRouteHintHop (encode_hex (serialize node_a)) 1234 1000 100 40 None None) 13).

(* ------------------------------------------------------------------ *)
(** * Statements of the specification *)

(** The error kinds of the specification's taxonomy (section 7). *)
Inductive SpecErrorKind :=
| EmptyInput | MalformedEncoding | ValidationKind | GenericKind | InvalidNetworkKind.

(** The kind an [InvoiceError] of the code falls in. *)
Definition error_kind (e : InvoiceError) : SpecErrorKind :=
  match e with
  | Generic _ => GenericKind
  | InvalidNetwork _ => InvalidNetworkKind
  | Validation _ => ValidationKind
  end.


Section SpecSignature.
Context `{Secp256k1}.

(** Section 4.4: the appended signature is valid when a key can be
    recovered from it and, if an [n] field names the payee, it verifies
    against that key. *)
Definition signature_valid (signed : SignedRawInvoice) : bool :=
  match ecdsa_recover (hash signed) (signature signed) (recovery_id signed) with
  | Err _ => false
  | Ok _ =>
      match raw_payee_pub_key (raw_invoice signed) with
      | Some pk => ecdsa_verify (hash signed) (signature signed) pk
      | None => true
      end
  end.

End SpecSignature.

Definition is_lower_hex_char (c : Z) : bool :=
  ((48 <=? c) && (c <=? 57)) || ((97 <=? c) && (c <=? 102)).

Section Canonical.
Context `{Secp256k1}.

(** A hop as a decoded invoice carries it: its key serializes to 33
    bytes that the curve parses back to the same key, and its CLTV delta
    is a u16. *)
Definition canonical_hop (hop : LdkRouteHintHop) : bool :=
  let k := serialize (ldk_src_node_id hop) in
  (List.length k =? 33)%nat && forallb (fun b => (0 <=? b) && (b <? 256)) k &&
  match pk_parse k with Some k' => str_eqb k' k | None => false end &&
  (0 <=? ldk_cltv_expiry_delta hop) && (ldk_cltv_expiry_delta hop <? 2 ^ 16).

End Canonical.

(* ================================================================== *)
(** * Proofs *)

Section Proofs.
Context `{Secp256k1} `{Bolt11Parser}.

(** ** Strings *)

Lemma str_eqb_eq (a b : rstring) : str_eqb a b = true -> a = b.
Proof.
  revert b; induction a as [|x a IH]; intros [|y b]; simpl; try discriminate; auto.
  intros Hxy. apply andb_prop in Hxy as [Hx Hr].
  apply Z.eqb_eq in Hx. subst. f_equal. auto.
Qed.

Lemma hex_digit_lower (n : Z) : 0 <= n < 16 -> is_lower_hex_char (hex_digit n) = true.
Proof.
  intros Hn. unfold hex_digit, is_lower_hex_char.
  destruct (Z.ltb_spec n 10); apply orb_true_iff;
    [left | right]; apply andb_true_iff; split; apply Z.leb_le; lia.
Qed.

Lemma high_nibble_range (b : Z) : 0 <= Z.shiftr (Z.land b 240) 4 < 16.
Proof.
  rewrite Z.shiftr_land. change (Z.shiftr 240 4) with (Z.ones 4).
  rewrite Z.land_ones by lia. apply Z.mod_pos_bound. lia.
Qed.

Lemma low_nibble_range (b : Z) : 0 <= Z.land b 15 < 16.
Proof.
  change 15 with (Z.ones 4). rewrite Z.land_ones by lia. apply Z.mod_pos_bound. lia.
Qed.

(** [encode_hex] writes lower-case hex digits only. *)
Lemma encode_hex_lower (bs : list Z) : forallb is_lower_hex_char (encode_hex bs) = true.
Proof.
  induction bs as [|b bs IH]; simpl; auto.
  rewrite (hex_digit_lower _ (high_nibble_range b)), (hex_digit_lower _ (low_nibble_range b)).
  exact IH.
Qed.

(** A string with a character outside [0-9a-f] is no [encode_hex] output. *)
Lemma encode_hex_neq (bs : list Z) (id : rstring) :
  existsb (fun c => negb (is_lower_hex_char c)) id = true ->
  str_eqb (encode_hex bs) id = false.
Proof.
  intros Hid. destruct (str_eqb (encode_hex bs) id) eqn:E; auto.
  apply str_eqb_eq in E. subst id.
  pose proof (encode_hex_lower bs) as Hl.
  apply existsb_exists in Hid as [c [Hin Hc]].
  rewrite forallb_forall in Hl. rewrite (Hl c Hin) in Hc. discriminate.
Qed.

(** ** The merge *)




Lemma hop_to_ldk_cases (hop : RouteHintHop) :
  (exists k, pubkey_from_str (src_node_id hop) = Ok k /\
     hop_to_ldk hop = Ok {| ldk_src_node_id := k;
        ldk_short_channel_id := short_channel_id hop;
        ldk_fees := {| base_msat := fees_base_msat hop;
                       proportional_millionths := fees_proportional_millionths hop |};
        ldk_cltv_expiry_delta := as_u16 (cltv_expiry_delta hop);
        ldk_htlc_minimum_msat := htlc_minimum_msat hop;
        ldk_htlc_maximum_msat := htlc_maximum_msat hop |}) \/
  (pubkey_from_str (src_node_id hop) = Err InvalidPublicKey /\
   hop_to_ldk hop = Err (Generic (FromSecp InvalidPublicKey))).
Proof.
  unfold hop_to_ldk. destruct (pubkey_from_str (src_node_id hop)) as [k|[]]; simpl; eauto.
Qed.

(** Every failure of [to_ldk_hint] is the key-parsing error. *)
Lemma to_ldk_hint_err (rh : RouteHint) (e : InvoiceError) :
  to_ldk_hint rh = Err e -> e = Generic (FromSecp InvalidPublicKey).
Proof.
  unfold to_ldk_hint. destruct rh as [hs]. cbn [hops].
  induction hs as [|hop hs IH]; simpl; [discriminate|].
  destruct (hop_to_ldk_cases hop) as [[k [_ ->]]|[_ ->]]; simpl.
  - destruct (hops_to_ldk hs); simpl; [discriminate|]. intros E. apply IH. exact E.
  - congruence.
Qed.



(** C9: an LSP hint whose every hop [src_node_id] has a character outside
    lower-case hex (for example a key written in upper-case hex) makes the
    merge with [include_route_hints = true] keep every existing hint. *)
Theorem merge_keeps_hints_for_non_lowercase_ids (existing : list LdkRouteHint)
    (lsp_hint : RouteHint) :
  Forall (fun lsp_hop => existsb (fun c => negb (is_lower_hex_char c)) (src_node_id lsp_hop) = true)
         (hops lsp_hint) ->
  merge_hints existing true (Some lsp_hint) =
  (let? h := to_ldk_hint lsp_hint in Ok (existing ++ [h])).
Proof.
  intros Hids. simpl.
  rewrite (filter_ext _ (fun _ => true)).
  - rewrite filter_true. reflexivity.
  - intros hint. apply forallb_forall. intros hop _.
    unfold hop_avoids. apply forallb_forall. intros lsp_hop Hin.
    rewrite Forall_forall in Hids.
    rewrite (encode_hex_neq _ _ (Hids lsp_hop Hin)). reflexivity.
Qed.

(** ** Conversion of route hints *)

Lemma hops_to_ldk_ok (hs : list RouteHintHop) :
  Forall (fun hop => exists k, pubkey_from_str (src_node_id hop) = Ok k) hs ->
  exists lhs, hops_to_ldk hs = Ok lhs /\
    Forall2 (fun hop lh => ldk_cltv_expiry_delta lh = as_u16 (cltv_expiry_delta hop)) hs lhs.
Proof.
  induction 1 as [|hop hs [k Hk] _ [lhs [Hl Hf]]]; simpl.
  - exists []. split; [reflexivity | constructor].
  - unfold hop_to_ldk. rewrite Hk. simpl. rewrite Hl. simpl.
    eexists. split; [reflexivity|]. constructor; [reflexivity | exact Hf].
Qed.

(** C10: when every hop's [src_node_id] is a valid key, [to_ldk_hint]
    succeeds whatever the CLTV deltas; each converted delta is the
    caller's modulo 2^16, hence smaller than the caller's when that is
    2^16 or more; and the merge, in both modes, ends with this converted
    hint. *)
Theorem to_ldk_hint_truncates_cltv (lsp_hint : RouteHint) :
  Forall (fun hop => exists k, pubkey_from_str (src_node_id hop) = Ok k) (hops lsp_hint) ->
  exists h, to_ldk_hint lsp_hint = Ok h /\
    Forall2 (fun hop lh =>
               ldk_cltv_expiry_delta lh = cltv_expiry_delta hop mod 2 ^ 16 /\
               (2 ^ 16 <= cltv_expiry_delta hop -> ldk_cltv_expiry_delta lh < cltv_expiry_delta hop))
            (hops lsp_hint) (ldk_hops h) /\
    (forall existing include_route_hints, exists kept,
       merge_hints existing include_route_hints (Some lsp_hint) = Ok (kept ++ [h])).
Proof.
  intros Hk. destruct (hops_to_ldk_ok _ Hk) as [lhs [Hl Hf]].
  assert (Hto : to_ldk_hint lsp_hint = Ok (mkLdkRouteHint lhs)).
  { unfold to_ldk_hint. rewrite Hl. reflexivity. }
  exists (mkLdkRouteHint lhs). split; [exact Hto | split].
  - simpl. clear - Hf. induction Hf as [|hop lh hs lhs' Heq _ IH]; constructor; auto.
    rewrite Heq. unfold as_u16. split; [reflexivity|].
    intros Hge. pose proof (Z.mod_pos_bound (cltv_expiry_delta hop) (2 ^ 16)). lia.
  - intros existing [|]; simpl; rewrite Hto; simpl; eexists; [reflexivity|].
    instantiate (1 := []). reflexivity.
Qed.

(** ** Network validation *)

Lemma network_eqb_eq (a b : Network) : network_eqb a b = true <-> a = b.
Proof. destruct a, b; simpl; split; congruence. Qed.

(** C6: [validate_network] succeeds exactly when the networks are equal
    and otherwise fails with [InvalidNetwork]; in particular an invoice
    always validates against its own network. *)
Theorem validate_network_spec (invoice : LNInvoice) (n : Network) :
  (validate_network invoice n = Ok tt <-> network invoice = n) /\
  (network invoice <> n ->
   validate_network invoice n = Err (InvalidNetwork (Msg "Invoice network does not match config"))) /\
  validate_network invoice (network invoice) = Ok tt.
Proof.
  unfold validate_network. split; [|split].
  - destruct (network_eqb (network invoice) n) eqn:E.
    + apply network_eqb_eq in E. split; auto.
    + split; [discriminate|]. intros Heq. apply network_eqb_eq in Heq. congruence.
  - intros Hne. destruct (network_eqb (network invoice) n) eqn:E; auto.
    apply network_eqb_eq in E. contradiction.
  - assert (E : network_eqb (network invoice) (network invoice) = true)
      by (apply network_eqb_eq; reflexivity).
    rewrite E. reflexivity.
Qed.

(** ** parse_invoice *)

Lemma trim_start_all_whitespace (s : rstring) :
  forallb is_whitespace s = true -> trim_start s = [].
Proof.
  induction s as [|c s IH]; simpl; auto.
  intros Hw. apply andb_prop in Hw as [Hc Hs]. rewrite Hc. auto.
Qed.

Lemma trim_start_keeps (s : rstring) (c : Z) :
  In c s -> is_whitespace c = false -> trim_start s <> [].
Proof.
  induction s as [|d s IH]; simpl; [tauto|].
  intros [->|Hin] Hc.
  - rewrite Hc. discriminate.
  - destruct (is_whitespace d); [auto | discriminate].
Qed.

Lemma trim_nonempty (c : Z) (s : rstring) :
  is_whitespace c = false -> is_empty (trim (c :: s)) = false.
Proof.
  intros Hc. unfold trim. simpl. rewrite Hc.
  assert (Hne : trim_start (rev (c :: s)) <> []).
  { apply (trim_start_keeps _ c); auto. apply in_rev. rewrite rev_involutive. left; auto. }
  destruct (rev (trim_start (rev (c :: s)))) eqn:E; [|reflexivity].
  apply (f_equal (@rev Z)) in E. rewrite rev_involutive in E. simpl in E. contradiction.
Qed.

Lemma from_signed_inv (signed : SignedRawInvoice) (inv : Invoice) :
  from_signed signed = Ok inv ->
  inv = mkInvoice signed /\ invoice_check_signature inv = Ok tt.
Proof.
  unfold from_signed.
  destruct (check_field_counts (mkInvoice signed)); simpl; [|discriminate].
  destruct (check_feature_bits (mkInvoice signed)); simpl; [|discriminate].
  destruct (invoice_check_signature (mkInvoice signed)) as [[]|] eqn:E; simpl; [|discriminate].
  destruct (check_amount (mkInvoice signed)); simpl; [|discriminate].
  intros Heq. inversion Heq. auto.
Qed.

(** What a successful [parse_invoice] was computed from. *)
Lemma parse_invoice_ok_inv (s : rstring) (ln : LNInvoice) :
  parse_invoice s = Ok ln ->
  exists signed,
    is_empty (trim s) = false /\
    signed_from_str (strip_lightning_scheme s) = Ok signed /\
    from_signed signed = Ok (mkInvoice signed) /\
    invoice_check_signature (mkInvoice signed) = Ok tt /\
    bolt11 ln = strip_lightning_scheme s /\
    payee_pubkey ln =
      encode_hex (serialize (match invoice_payee_pub_key (mkInvoice signed) with
                             | Some key => key
                             | None => invoice_recover_payee_pub_key (mkInvoice signed)
                             end)) /\
    description ln = (match invoice_description (mkInvoice signed) with
                      | Direct msg => Some msg | Hash _ => None end) /\
    description_hash ln = (match invoice_description (mkInvoice signed) with
                           | Direct _ => None | Hash h => Some (encode_hex h) end).
Proof.
  unfold parse_invoice. destruct (is_empty (trim s)) eqn:Hblank; [discriminate|].
  destruct (signed_from_str (strip_lightning_scheme s)) as [signed|e] eqn:Hs; simpl; [|discriminate].
  destruct (from_signed signed) as [inv|e] eqn:Hf; simpl; [|discriminate].
  destruct (from_signed_inv _ _ Hf) as [-> Hc].
  destruct (duration_since_epoch (invoice_timestamp (mkInvoice signed))); simpl; [|discriminate].
  rewrite Hc. simpl. intros Heq. inversion Heq; subst; clear Heq.
  exists signed. repeat split; auto. simpl.
  destruct (invoice_payee_pub_key (mkInvoice signed)); reflexivity.
Qed.

(** C3 (amended): an empty or whitespace-only input makes [parse_invoice]
    fail with a [Validation] error ("bolt11 is an empty string"), whatever
    the decoder: no decoding takes place. The error type has no
    [EmptyInput] kind. *)
Theorem parse_invoice_blank (s : rstring) :
  forallb is_whitespace s = true ->
  parse_invoice s = Err (Validation (Msg "bolt11 is an empty string")).
Proof.
  intros Hw. unfold parse_invoice, trim.
  rewrite (trim_start_all_whitespace s Hw). reflexivity.
Qed.

(** C4 (amended): when decoding the (scheme-stripped) text fails,
    [parse_invoice] fails with a [Validation] error wrapping the decoder's
    [ParseError] (or, for blank text, the empty-input message); the error
    type has no [MalformedEncoding] kind. *)
Theorem parse_invoice_decode_failure (s : rstring) (e : ParseError) :
  signed_from_str (strip_lightning_scheme s) = Err e ->
  parse_invoice s =
  Err (Validation (if is_empty (trim s) then Msg "bolt11 is an empty string" else FromParse e)).
Proof.
  intros He. unfold parse_invoice.
  destruct (is_empty (trim s)); [reflexivity|]. rewrite He. reflexivity.
Qed.

Lemma check_signature_ok (signed : SignedRawInvoice) :
  invoice_check_signature (mkInvoice signed) = Ok tt ->
  exists k0, ecdsa_recover (hash signed) (signature signed) (recovery_id signed) = Ok k0 /\
    invoice_recover_payee_pub_key (mkInvoice signed) = k0 /\
    signed_check_signature signed = true.
Proof.
  unfold invoice_check_signature, invoice_recover_payee_pub_key, signed_recover_payee_pub_key.
  simpl. destruct (ecdsa_recover (hash signed) (signature signed) (recovery_id signed)) as [k0|[]];
    try discriminate.
  destruct (signed_check_signature signed) eqn:E; simpl; [|discriminate].
  intros _. exists k0. auto.
Qed.

Lemma check_signature_invalid (signed : SignedRawInvoice) :
  signature_valid signed = false ->
  exists e, invoice_check_signature (mkInvoice signed) = Err e.
Proof.
  unfold signature_valid, invoice_check_signature, signed_recover_payee_pub_key,
    signed_check_signature. simpl.
  destruct (ecdsa_recover (hash signed) (signature signed) (recovery_id signed)) as [k0|[]];
    eauto.
  intros Hv. rewrite Hv. simpl. eauto.
Qed.

(** C5: on success the payee key is the [n] field's key, against which
    the signature verifies, or, without an [n] field, the key recovered
    from the signature, recovery id and digest; a signature that is not
    valid makes [parse_invoice] fail with a [Validation] error. *)
Theorem parse_invoice_payee_pubkey (s : rstring) :
  (forall ln, parse_invoice s = Ok ln ->
     exists signed k,
       signed_from_str (strip_lightning_scheme s) = Ok signed /\
       payee_pubkey ln = encode_hex (serialize k) /\
       ((raw_payee_pub_key (raw_invoice signed) = Some k /\
         ecdsa_verify (hash signed) (signature signed) k = true) \/
        (raw_payee_pub_key (raw_invoice signed) = None /\
         ecdsa_recover (hash signed) (signature signed) (recovery_id signed) = Ok k))) /\
  (forall signed, is_empty (trim s) = false ->
     signed_from_str (strip_lightning_scheme s) = Ok signed ->
     signature_valid signed = false ->
     exists c, parse_invoice s = Err (Validation c)).
Proof.
  split.
  - intros ln Hp.
    destruct (parse_invoice_ok_inv _ _ Hp) as [signed [_ [Hs [_ [Hc [_ [Hpk _]]]]]]].
    destruct (check_signature_ok _ Hc) as [k0 [Hrec [Hk0 Hchk]]].
    unfold invoice_payee_pub_key, invoice_raw in Hpk. simpl in Hpk.
    unfold signed_check_signature in Hchk.
    destruct (raw_payee_pub_key (raw_invoice signed)) as [pk|] eqn:Hn.
    + exists signed, pk. repeat split; auto.
    + exists signed, k0. rewrite Hk0 in Hpk. repeat split; auto.
  - intros signed Hne Hs Hv. unfold parse_invoice. rewrite Hne, Hs. simpl.
    unfold from_signed, from_semantic_error.
    destruct (check_field_counts (mkInvoice signed)) as [[]|e]; simpl; [|eauto].
    destruct (check_feature_bits (mkInvoice signed)) as [[]|e]; simpl; [|eauto].
    destruct (check_signature_invalid _ Hv) as [e He]. rewrite He. simpl. eauto.
Qed.

(** C7: a parsed invoice has exactly one of [description] and
    [description_hash]. *)
Theorem parse_invoice_description_xor (s : rstring) (ln : LNInvoice) :
  parse_invoice s = Ok ln ->
  (description ln <> None /\ description_hash ln = None) \/
  (description ln = None /\ description_hash ln <> None).
Proof.
  intros Hp.
  destruct (parse_invoice_ok_inv _ _ Hp) as [signed [_ [_ [_ [_ [_ [_ [Hd Hh]]]]]]]].
  rewrite Hd, Hh. destruct (invoice_description (mkInvoice signed)).
  - left. split; [discriminate | reflexivity].
  - right. split; [reflexivity | discriminate].
Qed.

(** ** The [lightning:] scheme *)

Lemma ci_prefix_app (pat p r : rstring) :
  ci_prefix pat p = true -> ci_prefix pat (p ++ r) = true.
Proof.
  revert p; induction pat as [|x pat IH]; intros [|c p]; simpl; auto; try discriminate.
  intros Hm. apply andb_prop in Hm as [Hc Hp]. rewrite Hc. simpl. auto.
Qed.

Lemma skipn_length_app (p r : rstring) : skipn (List.length p) (p ++ r) = r.
Proof. induction p; simpl; auto. Qed.

(** C8 (amended): exactly one leading, case-insensitive [lightning:] is
    removed, and text not starting with it is left as it is; so parsing
    [p ++ r], for any case variant [p] of the marker, is parsing [r]
    whenever [r] is not blank and does not itself start with the marker. *)
Theorem parse_invoice_strips_one_scheme (p r : rstring) :
  List.length p = 10%nat -> ci_prefix lightning_scheme p = true ->
  strip_lightning_scheme (p ++ r) = r /\
  (forall s, ci_prefix lightning_scheme s = false -> strip_lightning_scheme s = s) /\
  (is_empty (trim r) = false -> ci_prefix lightning_scheme r = false ->
   parse_invoice (p ++ r) = parse_invoice r).
Proof.
  intros Hlen Hci.
  assert (Hstrip : strip_lightning_scheme (p ++ r) = r).
  { unfold strip_lightning_scheme. rewrite (ci_prefix_app _ _ _ Hci).
    change (List.length lightning_scheme) with 10%nat. rewrite <- Hlen.
    apply skipn_length_app. }
  split; [exact Hstrip | split].
  - intros s Hs. unfold strip_lightning_scheme. rewrite Hs. reflexivity.
  - intros Hr Hrs.
    assert (Hne : is_empty (trim (p ++ r)) = false).
    { destruct p as [|c p]; [discriminate|].
      simpl in Hci. apply andb_prop in Hci as [Hc _].
      apply trim_nonempty. unfold ci_char_matches in Hc.
      apply orb_true_iff in Hc as [Hc|Hc].
      - apply Z.eqb_eq in Hc. subst. reflexivity.
      - apply andb_prop in Hc as [_ Hc]. apply Z.eqb_eq in Hc. subst. reflexivity. }
    assert (Hrr : strip_lightning_scheme r = r).
    { unfold strip_lightning_scheme. rewrite Hrs. reflexivity. }
    unfold parse_invoice. rewrite Hne, Hr, Hstrip, Hrr. reflexivity.
Qed.

(** ** Reconstruction *)

Lemma fold_private_route (hints : list LdkRouteHint) (b : InvoiceBuilder) :
  b_error (fold_left (fun b hint => builder_private_route hint b) hints b) = None ->
  b_error b = None /\
  fold_left (fun b hint => builder_private_route hint b) hints b =
  mkInvoiceBuilder (b_currency b) (b_amount b) (b_timestamp b)
                   (b_tagged_fields b ++ map PrivateRoute hints) None.
Proof.
  revert b; induction hints as [|hint hints IH]; intros b Hnone; simpl in *.
  - rewrite app_nil_r. destruct b; simpl in *; subst; auto.
  - destruct (IH _ Hnone) as [Hb Heq]. rewrite Heq.
    unfold builder_private_route in *.
    destruct (Nat.leb (List.length (ldk_hops hint)) 12); simpl in *; [|discriminate].
    split; auto. rewrite <- app_assoc. reflexivity.
Qed.



Lemma find_extract_private_routes {A} (f : TaggedField -> option A) (hints : list LdkRouteHint) :
  (forall r, f (PrivateRoute r) = None) -> find_extract f (map PrivateRoute hints) = None.
Proof. intros Hf. induction hints as [|h hints IH]; simpl; auto. rewrite Hf. exact IH. Qed.


End Proofs.

(* ================================================================== *)
(** * Further properties of the code *)

Section Extras.
Context `{Secp256k1} `{Bolt11Parser}.

(** ** Hex encoding and decoding of node ids *)

(** Every byte, checked once: its two hex digits decode back to it. *)
Lemma byte_table :
  forallb (fun n =>
    let b := Z.of_nat n in
    let hi := Z.shiftr (Z.land b 240) 4 in
    let lo := Z.land b 15 in
    match hex_val (hex_digit hi), hex_val (hex_digit lo) with
    | Some h, Some l =>
        (hex_digit hi <? 128) && (hex_digit lo <? 128) &&
        (Z.lor (Z.land (Z.shiftl (Z.lor (Z.land (Z.shiftl 0 4) 255) h) 4) 255) l =? b)
    | _, _ => false
    end) (seq 0 256) = true.
Proof. vm_compute. reflexivity. Qed.

Lemma byte_hex (b : Z) : 0 <= b < 256 ->
  exists h l, hex_val (hex_digit (Z.shiftr (Z.land b 240) 4)) = Some h /\
    hex_val (hex_digit (Z.land b 15)) = Some l /\
    hex_digit (Z.shiftr (Z.land b 240) 4) < 128 /\ hex_digit (Z.land b 15) < 128 /\
    Z.lor (Z.land (Z.shiftl (Z.lor (Z.land (Z.shiftl 0 4) 255) h) 4) 255) l = b.
Proof.
  intros Hb. pose proof byte_table as T. rewrite forallb_forall in T.
  assert (Hin : In (Z.to_nat b) (seq 0 256)) by (apply in_seq; lia).
  specialize (T _ Hin). cbv beta zeta in T. rewrite Z2Nat.id in T by lia.
  destruct (hex_val (hex_digit (Z.shiftr (Z.land b 240) 4))) as [h|]; [|discriminate].
  destruct (hex_val (hex_digit (Z.land b 15))) as [l|]; [|discriminate].
  apply andb_prop in T as [T E]. apply andb_prop in T as [T1 T2].
  exists h, l. rewrite Z.ltb_lt in T1, T2. rewrite Z.eqb_eq in E. auto.
Qed.

Lemma encode_hex_length (bs : list Z) : List.length (encode_hex bs) = (2 * List.length bs)%nat.
Proof. induction bs as [|b bs IH]; simpl; [reflexivity|]. rewrite IH. lia. Qed.

Lemma encode_hex_str_len (bs : list Z) : Forall (fun b => 0 <= b < 256) bs ->
  str_len (encode_hex bs) = (2 * List.length bs)%nat.
Proof.
  induction 1 as [|b bs Hb _ IH]; [reflexivity|].
  destruct (byte_hex b Hb) as [h [l [_ [_ [H1 [H2 _]]]]]].
  unfold str_len in *. cbn [encode_hex fold_right List.length]. rewrite IH. unfold utf8_width.
  rewrite (proj2 (Z.ltb_lt _ _) H1), (proj2 (Z.ltb_lt _ _) H2). lia.
Qed.

Lemma from_hex_loop_encode (bs : list Z) (idx : nat) (acc : list Z) :
  Forall (fun b => 0 <= b < 256) bs -> Nat.even idx = true ->
  from_hex_loop (encode_hex bs) 0 idx acc = Some (rev acc ++ bs).
Proof.
  intros Hbs; revert idx acc; induction Hbs as [|b bs Hb _ IH]; intros idx acc Hev.
  - simpl. rewrite app_nil_r. reflexivity.
  - destruct (byte_hex b Hb) as [h [l [Hh [Hl [_ [_ Hv]]]]]].
    cbn [encode_hex from_hex_loop]. rewrite Hh.
    assert (Ho : Nat.odd idx = false) by (unfold Nat.odd; rewrite Hev; reflexivity).
    rewrite Ho, Hl.
    assert (Ho' : Nat.odd (S idx) = true) by (rewrite Nat.odd_succ; exact Hev).
    rewrite Ho', Hv. rewrite IH by (simpl; exact Hev). simpl. rewrite <- app_assoc. reflexivity.
Qed.

Lemma from_hex_encode_hex (bs : list Z) :
  Forall (fun b => 0 <= b < 256) bs -> (List.length bs <= 65)%nat ->
  from_hex (encode_hex bs) = Some bs.
Proof.
  intros Hbs Hlen. unfold from_hex. rewrite (encode_hex_str_len _ Hbs).
  assert (Hodd : Nat.odd (2 * List.length bs) = false).
  { unfold Nat.odd. rewrite Nat.even_mul. reflexivity. }
  assert (Hle : (130 <? 2 * List.length bs)%nat = false) by (apply Nat.ltb_ge; lia).
  rewrite Hodd, Hle. cbn [orb]. rewrite (from_hex_loop_encode _ 0 [] Hbs eq_refl). reflexivity.
Qed.

Lemma pubkey_from_str_encode (k : PublicKey) :
  (List.length (serialize k) = 33)%nat -> Forall (fun b => 0 <= b < 256) (serialize k) ->
  pk_parse (serialize k) = Some (serialize k) ->
  pubkey_from_str (encode_hex (serialize k)) = Ok k.
Proof.
  intros Hl Hb Hp. unfold pubkey_from_str. rewrite from_hex_encode_hex by (auto; lia).
  rewrite Hl. cbn [Nat.eqb]. unfold from_slice. rewrite Hp. destruct k; reflexivity.
Qed.

Lemma canonical_hop_spec (hop : LdkRouteHintHop) : canonical_hop hop = true ->
  List.length (serialize (ldk_src_node_id hop)) = 33%nat /\
  Forall (fun b => 0 <= b < 256) (serialize (ldk_src_node_id hop)) /\
  pk_parse (serialize (ldk_src_node_id hop)) = Some (serialize (ldk_src_node_id hop)) /\
  0 <= ldk_cltv_expiry_delta hop < 2 ^ 16.
Proof.
  unfold canonical_hop. intros Hc.
  repeat match type of Hc with (_ && _) = true => apply andb_prop in Hc as [Hc ?] end.
  repeat match goal with Hx : (_ && _) = true |- _ => apply andb_prop in Hx as [? ?] end.
  apply Nat.eqb_eq in Hc. apply Z.leb_le in H2. apply Z.ltb_lt in H1.
  destruct (pk_parse (serialize (ldk_src_node_id hop))) as [k'|]; [|discriminate].
  apply str_eqb_eq in H3. subst k'.
  repeat split; auto; try lia.
  apply Forall_forall. rewrite forallb_forall in H4. intros b Hb.
  specialize (H4 b Hb). apply andb_prop in H4 as [A B].
  apply Z.leb_le in A. apply Z.ltb_lt in B. lia.
Qed.

Lemma hop_to_ldk_from_ldk (hop : LdkRouteHintHop) : canonical_hop hop = true ->
  hop_to_ldk (hop_from_ldk hop) = Ok hop.
Proof.
  intros Hc. destruct (canonical_hop_spec _ Hc) as [Hl [Hb [Hp Hd]]].
  destruct hop as [k sc [fb fp] d mn mx]; simpl in *.
  unfold hop_to_ldk, hop_from_ldk. cbn [src_node_id ldk_src_node_id].
  rewrite (pubkey_from_str_encode _ Hl Hb Hp). simpl.
  unfold as_u16. rewrite Z.mod_small by exact Hd. reflexivity.
Qed.

Lemma hops_to_ldk_from_ldk (hs : list LdkRouteHintHop) :
  forallb canonical_hop hs = true -> hops_to_ldk (map hop_from_ldk hs) = Ok hs.
Proof.
  induction hs as [|hop hs IH]; simpl; [reflexivity|].
  intros Hc. apply andb_prop in Hc as [Hh Ht].
  rewrite (hop_to_ldk_from_ldk _ Hh). simpl. rewrite (IH Ht). reflexivity.
Qed.

(** X1: a route hint as a decoded invoice carries it survives the trip
    through this crate's [RouteHint]: [from_ldk_hint] then [to_ldk_hint]
    gives it back. *)
Theorem to_ldk_hint_from_ldk_hint (h : LdkRouteHint) :
  forallb canonical_hop (ldk_hops h) = true ->
  to_ldk_hint (from_ldk_hint h) = Ok h.
Proof.
  intros Hc. unfold to_ldk_hint, from_ldk_hint. cbn [hops].
  rewrite (hops_to_ldk_from_ldk _ Hc). destruct h; reflexivity.
Qed.

(** ** to_ldk_hint *)

(** X2: [to_ldk_hint] fails exactly when the [src_node_id] of some hop is
    not a public key, and then always with the [Generic] key-parsing
    error. *)
Theorem to_ldk_hint_err_iff (rh : RouteHint) (e : InvoiceError) :
  to_ldk_hint rh = Err e <->
  e = Generic (FromSecp InvalidPublicKey) /\
  Exists (fun hop => pubkey_from_str (src_node_id hop) = Err InvalidPublicKey) (hops rh).
Proof.
  split.
  - intros He. split; [exact (to_ldk_hint_err _ _ He)|].
    revert He. unfold to_ldk_hint. destruct rh as [hs]. cbn [hops].
    induction hs as [|hop hs IH]; simpl; [discriminate|].
    destruct (hop_to_ldk_cases hop) as [[k [_ ->]]|[Hk ->]]; simpl.
    + intros He. right. apply IH. destruct (hops_to_ldk hs); simpl in *; [discriminate|congruence].
    + intros _. left. exact Hk.
  - intros [-> Hex]. unfold to_ldk_hint. destruct rh as [hs]. cbn [hops] in *.
    induction Hex as [hop hs Hk|hop hs _ IH]; simpl.
    + unfold hop_to_ldk. rewrite Hk. reflexivity.
    + destruct (hop_to_ldk_cases hop) as [[k [_ ->]]|[_ ->]]; simpl; [|reflexivity].
      destruct (hops_to_ldk hs); simpl in *; [discriminate|]. exact IH.
Qed.



Ltac z_cases :=
  repeat match goal with
  | |- context [?a <=? ?b] => destruct (Z.leb_spec a b)
  | |- context [?a <? ?b] => destruct (Z.ltb_spec a b)
  end; simpl; try lia; try reflexivity.

Lemma hex_val_upper (c : Z) :
  hex_val (if (97 <=? c) && (c <=? 122) then c - 32 else c) = hex_val c.
Proof.
  unfold hex_val. destruct (Z.leb_spec 97 c), (Z.leb_spec c 122); simpl; try reflexivity;
  z_cases; f_equal; lia.
Qed.

Lemma utf8_width_upper (c : Z) :
  utf8_width (if (97 <=? c) && (c <=? 122) then c - 32 else c) = utf8_width c.
Proof.
  unfold utf8_width. destruct (Z.leb_spec 97 c), (Z.leb_spec c 122); simpl; try reflexivity;
  z_cases.
Qed.

Lemma str_len_upper (s : rstring) : str_len (ascii_uppercase s) = str_len s.
Proof.
  unfold str_len, ascii_uppercase. induction s as [|c s IH]; simpl; [reflexivity|].
  rewrite IH, utf8_width_upper. reflexivity.
Qed.

Lemma from_hex_loop_upper (s : rstring) (b : Z) (idx : nat) (acc : list Z) :
  from_hex_loop (ascii_uppercase s) b idx acc = from_hex_loop s b idx acc.
Proof.
  revert b idx acc; induction s as [|c s IH]; intros b idx acc; [reflexivity|].
  cbn [ascii_uppercase map from_hex_loop]. fold (ascii_uppercase s).
  rewrite hex_val_upper. destruct (hex_val c); [|reflexivity].
  destruct (Nat.odd idx); apply IH.
Qed.

Lemma pubkey_from_str_upper (s : rstring) :
  pubkey_from_str (ascii_uppercase s) = pubkey_from_str s.
Proof.
  unfold pubkey_from_str, from_hex. rewrite str_len_upper, from_hex_loop_upper. reflexivity.
Qed.

(** X3: node ids are read case-insensitively: writing every
    [src_node_id] of a hint in upper case changes nothing in the result
    of [to_ldk_hint], success or error. *)
Theorem to_ldk_hint_uppercase (rh : RouteHint) :
  to_ldk_hint (uppercase_node_ids rh) = to_ldk_hint rh.
Proof.
  unfold to_ldk_hint, uppercase_node_ids. destruct rh as [hs]. cbn [hops].
  assert (E : hops_to_ldk (map (fun hop =>
    {| src_node_id := ascii_uppercase (src_node_id hop);
       short_channel_id := short_channel_id hop;
       fees_base_msat := fees_base_msat hop;
       fees_proportional_millionths := fees_proportional_millionths hop;
       cltv_expiry_delta := cltv_expiry_delta hop;
       htlc_minimum_msat := htlc_minimum_msat hop;
       htlc_maximum_msat := htlc_maximum_msat hop |}) hs) = hops_to_ldk hs).
  { induction hs as [|hop hs IH]; [reflexivity|].
    cbn [map hops_to_ldk]. rewrite IH. unfold hop_to_ldk. cbn [src_node_id].
    rewrite pubkey_from_str_upper. reflexivity. }
  rewrite E. reflexivity.
Qed.

(** X4: [from_ldk_hint] keeps the hops in order and writes each node id
    as lower-case hex, two digits per byte of the key's serialization;
    the CLTV delta is carried over unchanged. *)
Theorem from_ldk_hint_node_ids (h : LdkRouteHint) :
  Forall2 (fun lh hop =>
    forallb is_lower_hex_char (src_node_id hop) = true /\
    List.length (src_node_id hop) = (2 * List.length (serialize (ldk_src_node_id lh)))%nat /\
    short_channel_id hop = ldk_short_channel_id lh /\
    cltv_expiry_delta hop = ldk_cltv_expiry_delta lh) (ldk_hops h) (hops (from_ldk_hint h)).
Proof.
  unfold from_ldk_hint. cbn [hops]. induction (ldk_hops h) as [|lh l IH]; simpl; constructor; auto.
  simpl. split; [apply encode_hex_lower|]. split; [apply encode_hex_length|]. auto.
Qed.


(** ** parse_invoice *)

Lemma from_signed_counts (signed : SignedRawInvoice) (inv : Invoice) :
  from_signed signed = Ok inv -> check_field_counts (mkInvoice signed) = Ok tt.
Proof.
  unfold from_signed. destruct (check_field_counts (mkInvoice signed)) as [[]|]; simpl; auto.
  discriminate.
Qed.

Lemma find_extract_none_in {A} (f : TaggedField -> option A) (l : list TaggedField) :
  find_extract f l = None -> forall t, In t l -> f t = None.
Proof.
  induction l as [|t' l IH]; simpl; [tauto|].
  destruct (f t') eqn:E; [discriminate|]. intros Hn t [<-|Hin]; auto.
Qed.

Lemma count_find {A} (p : TaggedField -> bool) (f : TaggedField -> option A) (raw : RawInvoice) :
  (forall t, p t = true -> f t <> None) -> (1 <= count_fields p raw)%nat ->
  exists a, find_extract f (known_tagged_fields raw) = Some a.
Proof.
  intros Hpf Hc. destruct (find_extract f (known_tagged_fields raw)) as [a|] eqn:E; eauto.
  exfalso. unfold count_fields in Hc.
  destruct (filter p (known_tagged_fields raw)) as [|t r] eqn:Ef; simpl in Hc; [lia|].
  assert (Hin : In t (filter p (known_tagged_fields raw))) by (rewrite Ef; left; auto).
  apply filter_In in Hin as [Hin Hp]. exact (Hpf t Hp (find_extract_none_in _ _ E t Hin)).
Qed.

Lemma field_counts_present (inv : Invoice) :
  check_field_counts inv = Ok tt ->
  (exists ph, raw_payment_hash (invoice_raw inv) = Some ph) /\
  (exists ps, raw_payment_secret (invoice_raw inv) = Some ps).
Proof.
  unfold check_field_counts.
  set (c1 := count_fields (fun t => match t with PaymentHash _ => true | _ => false end) (invoice_raw inv)).
  set (c2 := count_fields (fun t => match t with Description _ | DescriptionHash _ => true | _ => false end) (invoice_raw inv)).
  set (c3 := count_fields (fun t => match t with PaymentSecret _ => true | _ => false end) (invoice_raw inv)).
  destruct (Nat.ltb_spec c1 1); [discriminate|]. destruct (1 <? c1)%nat; [discriminate|].
  destruct (c2 <? 1)%nat; [discriminate|]. destruct (1 <? c2)%nat; [discriminate|].
  destruct (Nat.ltb_spec c3 1); [discriminate|]. intros _. split.
  - apply (count_find (fun t => match t with PaymentHash _ => true | _ => false end)); auto.
    intros [] Ht; simpl in *; discriminate.
  - apply (count_find (fun t => match t with PaymentSecret _ => true | _ => false end)); auto.
    intros [] Ht; simpl in *; discriminate.
Qed.

(** X5: [parse_invoice] fails with a [Validation] error, or with the
    [Generic] system-time error, and the latter only when the decoded
    invoice's timestamp lies before the Unix epoch; it never reports
    [InvalidNetwork]. *)
Theorem parse_invoice_error_kinds (s : rstring) (e : InvoiceError) :
  parse_invoice s = Err e ->
  (exists c, e = Validation c) \/
  (e = Generic FromSystemTime /\
   exists signed, signed_from_str (strip_lightning_scheme s) = Ok signed /\
                  raw_timestamp (data (raw_invoice signed)) < 0).
Proof.
  unfold parse_invoice. destruct (is_empty (trim s)).
  { intros E. injection E as <-. eauto. }
  destruct (signed_from_str (strip_lightning_scheme s)) as [signed|pe] eqn:Hs; simpl.
  2:{ intros E. injection E as <-. left. eexists. reflexivity. }
  destruct (from_signed signed) as [inv|se] eqn:Hf; simpl.
  2:{ intros E. injection E as <-. left. eexists. reflexivity. }
  destruct (from_signed_inv _ _ Hf) as [-> Hc].
  unfold duration_since_epoch.
  destruct (Z.leb_spec 0 (invoice_timestamp (mkInvoice signed))); simpl.
  - rewrite Hc. simpl. discriminate.
  - intros E. injection E as <-. right. split; [reflexivity|]. exists signed. auto.
Qed.

(** X6: the fields of a parsed invoice: the network follows the
    currency, amount and timestamp are the invoice's (the timestamp is
    never negative), expiry and minimum final CLTV delta default to 3600
    and 18 when the invoice has no such field, the payment hash is the
    invoice's in hex, the payment secret is the invoice's, and the
    routing hints are the invoice's private routes converted one by one,
    in order. *)
Theorem parse_invoice_fields (s : rstring) (ln : LNInvoice) :
  parse_invoice s = Ok ln ->
  exists signed, signed_from_str (strip_lightning_scheme s) = Ok signed /\
    let raw := raw_invoice signed in
    network ln = network_of_btc (btc_network_of_currency (currency (hrp raw))) /\
    amount_msat ln = option_map (fun v => v / 10) (raw_amount_pico (hrp raw)) /\
    timestamp ln = raw_timestamp (data raw) /\ 0 <= timestamp ln /\
    expiry ln = match raw_expiry_time raw with Some e => e | None => 3600 end /\
    min_final_cltv_expiry_delta ln =
      match raw_min_final_cltv_expiry_delta raw with Some d => d | None => 18 end /\
    (exists ph, raw_payment_hash raw = Some ph /\ payment_hash ln = encode_hex ph) /\
    (exists ps, raw_payment_secret raw = Some ps /\ payment_secret ln = ps) /\
    routing_hints ln = map from_ldk_hint (raw_private_routes raw).
Proof.
  unfold parse_invoice. destruct (is_empty (trim s)); [discriminate|].
  destruct (signed_from_str (strip_lightning_scheme s)) as [signed|pe] eqn:Hs; simpl; [|discriminate].
  destruct (from_signed signed) as [inv|se] eqn:Hf; simpl; [|discriminate].
  pose proof (from_signed_counts _ _ Hf) as Hcnt.
  destruct (from_signed_inv _ _ Hf) as [-> Hc].
  unfold duration_since_epoch.
  destruct (Z.leb_spec 0 (invoice_timestamp (mkInvoice signed))) as [Hts|]; simpl; [|discriminate].
  rewrite Hc. simpl. intros E. injection E as <-.
  destruct (field_counts_present _ Hcnt) as [[ph Hph] [ps Hps]].
  unfold invoice_raw in Hph, Hps. simpl in Hph, Hps.
  exists signed. split; [reflexivity|]. cbn zeta. simpl.
  unfold invoice_payment_hash, invoice_payment_secret, invoice_raw. simpl.
  rewrite Hph, Hps. repeat split; eauto.
Qed.

(** X11: the routing hints [parse_invoice] returns convert back, with
    [to_ldk_hint], to the invoice's own private routes, when these carry
    keys as decoded invoices do. *)
Theorem parse_invoice_hints_round_trip (s : rstring) (signed : SignedRawInvoice) (ln : LNInvoice) :
  signed_from_str (strip_lightning_scheme s) = Ok signed ->
  parse_invoice s = Ok ln ->
  forallb (fun h => forallb canonical_hop (ldk_hops h)) (raw_private_routes (raw_invoice signed)) = true ->
  map to_ldk_hint (routing_hints ln) = map Ok (raw_private_routes (raw_invoice signed)).
Proof.
  intros Hs. unfold parse_invoice. destruct (is_empty (trim s)); [discriminate|].
  rewrite Hs. simpl.
  destruct (from_signed signed) as [inv|se] eqn:Hf; simpl; [|discriminate].
  destruct (from_signed_inv _ _ Hf) as [-> Hc].
  destruct (duration_since_epoch (invoice_timestamp (mkInvoice signed))); simpl; [|discriminate].
  rewrite Hc. simpl. intros E. injection E as <-. simpl.
  unfold invoice_route_hints, invoice_raw. simpl.
  induction (raw_private_routes (raw_invoice signed)) as [|h hs IH]; simpl; [reflexivity|].
  intros Hh. apply andb_prop in Hh as [Hh Ht]. rewrite IH by exact Ht. f_equal.
  unfold to_ldk_hint, from_ldk_hint. cbn [hops]. rewrite (hops_to_ldk_from_ldk _ Hh).
  destruct h; reflexivity.
Qed.


(** ** add_lsp_routing_hints *)


Lemma reconstruction_builder_error (inv : Invoice) (amt : Z) :
  b_error (reconstruction_builder inv amt) =
  if (0 <=? invoice_timestamp inv) && (invoice_timestamp inv <=? MAX_TIMESTAMP) then
    match invoice_description inv with
    | Direct d => if (639 <? str_len d)%nat then Some DescriptionTooLong else None
    | Hash _ => None
    end
  else Some TimestampOutOfBounds.
Proof.
  unfold reconstruction_builder, builder_timestamp, builder_invoice_description,
    builder_description, builder_description_hash.
  destruct ((0 <=? invoice_timestamp inv) && (invoice_timestamp inv <=? MAX_TIMESTAMP));
  destruct (invoice_description inv) as [d|h]; try destruct (639 <? str_len d)%nat; reflexivity.
Qed.

Lemma reconstruction_builder_shape (inv : Invoice) (amt : Z) :
  b_error (reconstruction_builder inv amt) = None ->
  reconstruction_builder inv amt =
  mkInvoiceBuilder (invoice_currency inv) (Some ((amt * 10) mod 2 ^ 64)) (Some (invoice_timestamp inv))
    [match invoice_description inv with Direct d => Description d | Hash h => DescriptionHash h end;
     PaymentHash (invoice_payment_hash inv); ExpiryTime (invoice_expiry_time inv);
     PaymentSecret (invoice_payment_secret inv); Features [8; 14];
     MinFinalCltvExpiryDelta (invoice_min_final_cltv_expiry_delta inv)] None.
Proof.
  rewrite reconstruction_builder_error.
  unfold reconstruction_builder, builder_timestamp, builder_invoice_description,
    builder_description, builder_description_hash.
  destruct ((0 <=? invoice_timestamp inv) && (invoice_timestamp inv <=? MAX_TIMESTAMP));
    [|discriminate].
  destruct (invoice_description inv) as [d|h]; [destruct (639 <? str_len d)%nat; [discriminate|]|];
    intros _; reflexivity.
Qed.

Lemma fold_private_route_ok (l : list LdkRouteHint) (b : InvoiceBuilder) :
  b_error (fold_left (fun b hint => builder_private_route hint b) l b) = None <->
  b_error b = None /\ Forall (fun h => (List.length (ldk_hops h) <= 12)%nat) l.
Proof.
  revert b; induction l as [|h l IH]; intros b; simpl.
  - split; [intros; split; auto|tauto].
  - rewrite IH. unfold builder_private_route.
    destruct (Nat.leb_spec (List.length (ldk_hops h)) 12); simpl.
    + split; [intros [Hb Hl]; split; auto|intros [Hb Hl]; inversion Hl; auto].
    + split; [intros [Hb _]; discriminate|intros [_ Hl]; inversion Hl; lia].
Qed.

Lemma fold_private_route_err (l : list LdkRouteHint) (b : InvoiceBuilder) (c : CreationError) :
  b_error (fold_left (fun b hint => builder_private_route hint b) l b) = Some c ->
  b_error b = Some c \/ c = RouteTooLong.
Proof.
  revert b; induction l as [|h l IH]; intros b; simpl; [auto|].
  intros Hc. destruct (IH _ Hc) as [Hb|]; auto.
  unfold builder_private_route in Hb. destruct (List.length (ldk_hops h) <=? 12)%nat; simpl in Hb.
  - auto.
  - injection Hb as <-. auto.
Qed.

Lemma merge_hints_err (existing : list LdkRouteHint) (incl : bool) (lsp : option RouteHint)
    (e : InvoiceError) :
  merge_hints existing incl lsp = Err e -> e = Generic (FromSecp InvalidPublicKey).
Proof.
  unfold merge_hints. destruct lsp as [l|]; [|discriminate].
  destruct incl; destruct (to_ldk_hint l) eqn:E; simpl; try discriminate;
    intros He; injection He as ->; exact (to_ldk_hint_err _ _ E).
Qed.

(** X7: the errors [add_lsp_routing_hints] can return: a decoding error
    or a semantic error of the invoice, both as [Validation]; the
    key-parsing error of an LSP hop; or one of three builder errors (a
    description over 639 bytes, a timestamp out of range, a route of more
    than 12 hops), as [Generic]. *)
Theorem add_lsp_routing_hints_error_kinds (s : rstring) (incl : bool) (lsp : option RouteHint)
    (amt : Z) (e : InvoiceError) :
  add_lsp_routing_hints s incl lsp amt = Err e ->
  (exists pe, e = Validation (FromParse pe)) \/
  (exists se, e = Validation (FromSemantic se)) \/
  e = Generic (FromSecp InvalidPublicKey) \/
  e = Generic (FromCreation DescriptionTooLong) \/
  e = Generic (FromCreation TimestampOutOfBounds) \/
  e = Generic (FromCreation RouteTooLong).
Proof.
  unfold add_lsp_routing_hints.
  destruct (signed_from_str s) as [signed|pe]; simpl.
  2:{ intros E. injection E as <-. left. eexists. reflexivity. }
  destruct (from_signed signed) as [inv|se]; simpl.
  2:{ intros E. injection E as <-. right; left. eexists. reflexivity. }
  destruct (merge_hints (invoice_route_hints inv) incl lsp) as [merged|me] eqn:Hm; simpl.
  2:{ intros E. injection E as <-. rewrite (merge_hints_err _ _ _ _ Hm). do 2 right; left. reflexivity. }
  unfold build_raw.
  destruct (b_error (fold_left (fun b hint => builder_private_route hint b) merged
                     (reconstruction_builder inv amt))) as [c|] eqn:Hc; [|discriminate].
  intros E. injection E as <-. unfold from_creation_error.
  destruct (fold_private_route_err _ _ _ Hc) as [Hb| ->]; [|do 5 right; reflexivity].
  rewrite reconstruction_builder_error in Hb.
  destruct ((0 <=? invoice_timestamp inv) && (invoice_timestamp inv <=? MAX_TIMESTAMP)).
  - destruct (invoice_description inv) as [d|h]; [|discriminate].
    destruct (639 <? str_len d)%nat; [|discriminate]. injection Hb as <-. do 3 right; left; reflexivity.
  - injection Hb as <-. do 4 right; left; reflexivity.
Qed.


Lemma reconstruction_builder_ok (inv : Invoice) (amt : Z) :
  b_error (reconstruction_builder inv amt) = None <->
  0 <= invoice_timestamp inv <= MAX_TIMESTAMP /\
  match invoice_description inv with Direct d => (str_len d <= 639)%nat | Hash _ => True end.
Proof.
  rewrite reconstruction_builder_error.
  destruct (Z.leb_spec 0 (invoice_timestamp inv)), (Z.leb_spec (invoice_timestamp inv) MAX_TIMESTAMP);
    simpl; try (split; [discriminate|lia]).
  destruct (invoice_description inv) as [d|h]; [|tauto].
  destruct (Nat.ltb_spec 639 (str_len d)); split; try discriminate; try tauto; lia.
Qed.

(** X8: for a new amount of at most [u64::MAX / 10] msat (so that
    [amount_msat * 10] does not overflow), once the invoice text has
    decoded, passed the semantic checks and the hints have merged,
    [add_lsp_routing_hints] returns a raw invoice
    exactly when the invoice's timestamp is in [0, 2^35 - 1], its direct
    description (if any) has at most 639 bytes, and every merged hint has
    at most 12 hops. *)
Theorem add_lsp_routing_hints_ok_iff (s : rstring) (incl : bool) (lsp : option RouteHint)
    (amt : Z) (signed : SignedRawInvoice) (merged : list LdkRouteHint) :
  0 <= amt <= U64_MAX / 10 ->
  signed_from_str s = Ok signed ->
  from_signed signed = Ok (mkInvoice signed) ->
  merge_hints (invoice_route_hints (mkInvoice signed)) incl lsp = Ok merged ->
  ((exists raw, add_lsp_routing_hints s incl lsp amt = Ok raw) <->
   (0 <= invoice_timestamp (mkInvoice signed) <= MAX_TIMESTAMP /\
    match invoice_description (mkInvoice signed) with
    | Direct d => (str_len d <= 639)%nat
    | Hash _ => True
    end /\
    Forall (fun h => (List.length (ldk_hops h) <= 12)%nat) merged)).
Proof.
  intros _ Hs Hf Hm. unfold add_lsp_routing_hints. rewrite Hs. simpl. rewrite Hf. simpl.
  rewrite Hm. simpl. unfold build_raw.
  pose proof (fold_private_route_ok merged (reconstruction_builder (mkInvoice signed) amt)) as Hfold.
  rewrite reconstruction_builder_ok in Hfold.
  destruct (b_error (fold_left (fun b hint => builder_private_route hint b) merged
                     (reconstruction_builder (mkInvoice signed) amt))) eqn:E; simpl.
  - split; [intros [raw Hr]; discriminate|].
    intros [Hts [Hd Hl]]. assert (Hn : Some c = None) by (apply Hfold; tauto). discriminate.
  - split; [|eauto]. intros _. destruct (proj1 Hfold eq_refl) as [[Hts Hd] Hl]. auto.
Qed.

(** X9: an LSP hint of more than 12 hops, all with valid node ids, makes
    [add_lsp_routing_hints] fail with [RouteTooLong] for any invoice that
    decodes and passes the semantic checks and any new amount of at most
    [u64::MAX / 10] msat (no overflow of [amount_msat * 10]), in both modes and even when
    the description or timestamp would have failed too: the LSP hint is
    added last and its error is the one reported. *)
Theorem add_lsp_routing_hints_long_lsp_hint (s : rstring) (incl : bool) (lsp : RouteHint)
    (amt : Z) (signed : SignedRawInvoice) :
  0 <= amt <= U64_MAX / 10 ->
  signed_from_str s = Ok signed ->
  from_signed signed = Ok (mkInvoice signed) ->
  (12 < List.length (hops lsp))%nat ->
  Forall (fun hop => exists k, pubkey_from_str (src_node_id hop) = Ok k) (hops lsp) ->
  add_lsp_routing_hints s incl (Some lsp) amt = Err (Generic (FromCreation RouteTooLong)).
Proof.
  intros _ Hs Hf Hlen Hk. destruct (hops_to_ldk_ok _ Hk) as [lhs [Hl Hf2]].
  apply Forall2_length in Hf2.
  assert (Hto : to_ldk_hint lsp = Ok (mkLdkRouteHint lhs)) by (unfold to_ldk_hint; rewrite Hl; reflexivity).
  assert (Hm : exists kept, merge_hints (invoice_route_hints (mkInvoice signed)) incl (Some lsp) =
                            Ok (kept ++ [mkLdkRouteHint lhs])).
  { destruct incl; simpl; rewrite Hto; simpl; eexists; [reflexivity|]. instantiate (1 := []). reflexivity. }
  destruct Hm as [kept Hm].
  unfold add_lsp_routing_hints. rewrite Hs. cbn [bind map_err]. rewrite Hf. cbn [bind map_err].
  rewrite Hm. cbn [bind map_err].
  rewrite fold_left_app. simpl. unfold builder_private_route at 1. simpl.
  destruct (Nat.leb_spec (List.length lhs) 12); [lia|]. reflexivity.
Qed.

Lemma flat_map_known (l : list TaggedField) :
  flat_map (fun f => match f with KnownSemantics t => [t] | UnknownSemantics _ => [] end)
           (map KnownSemantics l) = l.
Proof. induction l as [|t l IH]; simpl; [reflexivity|]. rewrite IH. reflexivity. Qed.

(** X10: the raw invoice [add_lsp_routing_hints] builds has no payee key
    ([n]) field and no fallback address, and its only feature bits are 8
    and 14, whatever the original invoice carried. *)
Theorem add_lsp_routing_hints_drops_fields (s : rstring) (incl : bool) (lsp : option RouteHint)
    (amt : Z) (raw : RawInvoice) :
  add_lsp_routing_hints s incl lsp amt = Ok raw ->
  raw_payee_pub_key raw = None /\ raw_features raw = Some [8; 14] /\ raw_fallbacks raw = [].
Proof.
  unfold add_lsp_routing_hints.
  destruct (signed_from_str s) as [signed|pe]; simpl; [|discriminate].
  destruct (from_signed signed) as [inv|se]; simpl; [|discriminate].
  destruct (merge_hints (invoice_route_hints inv) incl lsp) as [merged|me]; simpl; [|discriminate].
  unfold build_raw.
  destruct (b_error (fold_left (fun b hint => builder_private_route hint b) merged
                     (reconstruction_builder inv amt))) eqn:E; [discriminate|].
  apply fold_private_route in E as [E0 Hb]. rewrite Hb.
  rewrite (reconstruction_builder_shape _ _ E0).
  cbn [b_error b_currency b_amount b_timestamp b_tagged_fields map_err]. intros Hr. injection Hr as <-.
  unfold raw_payee_pub_key, raw_features, raw_fallbacks, known_tagged_fields. simpl.
  rewrite flat_map_known.
  destruct (invoice_description inv); simpl;
    (split; [apply find_extract_private_routes; reflexivity|split; [reflexivity|]]);
    clear; induction merged; simpl; auto.
Qed.

End Extras.

(* ================================================================== *)
(** * Concrete runs, witnesses and counterexamples *)

Definition example_existing_hints : list LdkRouteHint :=
  invoice_route_hints (mkInvoice example_signed).

(** The crate's tests: the LSP hint through the payee, in lower-case hex,
    replaces the existing hint through the payee and keeps the other. *)
Example merge_drops_colliding_hint :
  @merge_hints example_secp example_existing_hints true
    (Some (test_lsp_hint (encode_hex (serialize node_a)) 2000)) =
  Ok [mkLdkRouteHint [ldk_hop_via node_b 8];
      mkLdkRouteHint [mkLdkRouteHintHop node_a 1234 (mkRoutingFees 1000 100) 2000
                                        (Some 3000) (Some 4000)]].
Proof. vm_compute. reflexivity. Qed.

Example parse_example_payee :
  match @parse_invoice example_secp example_parser example_bolt11 with
  | Ok ln => payee_pubkey ln = encode_hex (serialize node_a) /\ network ln = Bitcoin
  | Err _ => False
  end.
Proof. vm_compute. split; reflexivity. Qed.





(** C3: the empty input fails, but not with an [EmptyInput] kind. *)
Lemma parse_invoice_blank_not_empty_input :
  ~ (forall s, forallb is_whitespace s = true ->
       exists e, @parse_invoice example_secp example_parser s = Err e /\ error_kind e = EmptyInput).
Proof.
  intros Hc. destruct (Hc [] eq_refl) as [e [He Hk]].
  vm_compute in He. injection He as <-. discriminate.
Qed.

Lemma parse_invoice_blank_witness :
  forallb is_whitespace [32; 9; 12288] = true /\
  @parse_invoice example_secp example_parser [32; 9; 12288] =
  Err (Validation (Msg "bolt11 is an empty string")).
Proof.
  assert (Hw : forallb is_whitespace [32; 9; 12288] = true) by reflexivity.
  exact (conj Hw (@parse_invoice_blank example_secp example_parser _ Hw)).
Defined.

(** C4: a text the decoder rejects fails with [Validation], not with a
    [MalformedEncoding] kind. *)
Lemma parse_invoice_decode_failure_not_malformed :
  ~ (forall s e, signed_from_str (Bolt11Parser := example_parser) (strip_lightning_scheme s) = Err e ->
       exists e', @parse_invoice example_secp example_parser s = Err e' /\
                  error_kind e' = MalformedEncoding).
Proof.
  intros Hc. destruct (Hc (of_ascii "x") Bech32Error eq_refl) as [e [He Hk]].
  vm_compute in He. injection He as <-. discriminate.
Qed.

Lemma parse_invoice_decode_failure_witness :
  signed_from_str (Bolt11Parser := example_parser) (strip_lightning_scheme (of_ascii "x")) =
    Err Bech32Error /\
  @parse_invoice example_secp example_parser (of_ascii "x") =
  Err (Validation (if is_empty (trim (of_ascii "x")) then Msg "bolt11 is an empty string"
                   else FromParse Bech32Error)).
Proof.
  assert (Hd : signed_from_str (Bolt11Parser := example_parser)
                 (strip_lightning_scheme (of_ascii "x")) = Err Bech32Error) by reflexivity.
  exact (conj Hd (@parse_invoice_decode_failure example_secp example_parser _ _ Hd)).
Defined.

Lemma parse_invoice_description_xor_witness :
  exists ln, @parse_invoice example_secp example_parser example_bolt11 = Ok ln /\
    ((description ln <> None /\ description_hash ln = None) \/
     (description ln = None /\ description_hash ln <> None)).
Proof.
  destruct (@parse_invoice example_secp example_parser example_bolt11) as [ln|e] eqn:E.
  - exists ln. split; [reflexivity|].
    exact (@parse_invoice_description_xor example_secp example_parser _ _ E).
  - vm_compute in E. discriminate.
Defined.

(** C8: a doubled marker is removed only once, so the prefixed text and
    the remainder parse differently. *)
Lemma parse_invoice_double_scheme :
  @parse_invoice example_secp example_parser
    (of_ascii "LIGHTNING:" ++ (of_ascii "lightning:" ++ example_bolt11)) =
    Err (Validation (FromParse Bech32Error)) /\
  (exists ln, @parse_invoice example_secp example_parser (of_ascii "lightning:" ++ example_bolt11) = Ok ln).
Proof.
  split; [vm_compute; reflexivity|].
  destruct (@parse_invoice example_secp example_parser (of_ascii "lightning:" ++ example_bolt11)) eqn:E.
  - eexists; reflexivity.
  - vm_compute in E. discriminate.
Qed.

Lemma parse_invoice_strips_one_scheme_witness :
  (List.length (of_ascii "LiGhTnInG:") = 10%nat /\ ci_prefix lightning_scheme (of_ascii "LiGhTnInG:") = true) /\
  (strip_lightning_scheme (of_ascii "LiGhTnInG:" ++ example_bolt11) = example_bolt11 /\
   (forall s, ci_prefix lightning_scheme s = false -> strip_lightning_scheme s = s) /\
   (is_empty (trim example_bolt11) = false -> ci_prefix lightning_scheme example_bolt11 = false ->
    @parse_invoice example_secp example_parser (of_ascii "LiGhTnInG:" ++ example_bolt11) =
    @parse_invoice example_secp example_parser example_bolt11)).
Proof.
  assert (Hl : List.length (of_ascii "LiGhTnInG:") = 10%nat) by reflexivity.
  assert (Hc : ci_prefix lightning_scheme (of_ascii "LiGhTnInG:") = true) by reflexivity.
  exact (conj (conj Hl Hc) (@parse_invoice_strips_one_scheme example_secp example_parser _ _ Hl Hc)).
Defined.

(** C9: the payee's key written in upper-case hex names the same node,
    yet the hint through the payee is kept. *)
Lemma merge_keeps_hints_for_non_lowercase_ids_witness :
  @pubkey_from_str example_secp (ascii_uppercase (encode_hex (serialize node_a))) = Ok node_a /\
  Forall (fun lsp_hop => existsb (fun c => negb (is_lower_hex_char c)) (src_node_id lsp_hop) = true)
    (hops (test_lsp_hint (ascii_uppercase (encode_hex (serialize node_a))) 2000)) /\
  @merge_hints example_secp example_existing_hints true
    (Some (test_lsp_hint (ascii_uppercase (encode_hex (serialize node_a))) 2000)) =
  (let? h := @to_ldk_hint example_secp
               (test_lsp_hint (ascii_uppercase (encode_hex (serialize node_a))) 2000) in
   Ok (example_existing_hints ++ [h])).
Proof.
  assert (Hf : Forall (fun lsp_hop => existsb (fun c => negb (is_lower_hex_char c)) (src_node_id lsp_hop) = true)
    (hops (test_lsp_hint (ascii_uppercase (encode_hex (serialize node_a))) 2000))).
  { constructor; [vm_compute; reflexivity | constructor]. }
  split; [vm_compute; reflexivity|].
  exact (conj Hf (@merge_keeps_hints_for_non_lowercase_ids example_secp _ _ Hf)).
Defined.

Lemma to_ldk_hint_truncates_cltv_witness :
  Forall (fun hop => exists k, @pubkey_from_str example_secp (src_node_id hop) = Ok k)
    (hops (test_lsp_hint (encode_hex (serialize node_a)) 70000)) /\
  exists h, @to_ldk_hint example_secp (test_lsp_hint (encode_hex (serialize node_a)) 70000) = Ok h /\
    Forall2 (fun hop lh =>
               ldk_cltv_expiry_delta lh = cltv_expiry_delta hop mod 2 ^ 16 /\
               (2 ^ 16 <= cltv_expiry_delta hop -> ldk_cltv_expiry_delta lh < cltv_expiry_delta hop))
            (hops (test_lsp_hint (encode_hex (serialize node_a)) 70000)) (ldk_hops h) /\
    (forall existing include_route_hints, exists kept,
       @merge_hints example_secp existing include_route_hints
         (Some (test_lsp_hint (encode_hex (serialize node_a)) 70000)) = Ok (kept ++ [h])).
Proof.
  assert (Hk : Forall (fun hop => exists k, @pubkey_from_str example_secp (src_node_id hop) = Ok k)
    (hops (test_lsp_hint (encode_hex (serialize node_a)) 70000))).
  { constructor; [exists node_a; vm_compute; reflexivity | constructor]. }
  exact (conj Hk (@to_ldk_hint_truncates_cltv example_secp _ Hk)).
Defined.

(** The converted delta of that hint is 70000 mod 65536 = 4464. *)
Example to_ldk_hint_70000 :
  @to_ldk_hint example_secp (test_lsp_hint (encode_hex (serialize node_a)) 70000) =
  Ok (mkLdkRouteHint [mkLdkRouteHintHop node_a 1234 (mkRoutingFees 1000 100) 4464
                                        (Some 3000) (Some 4000)]).
Proof. vm_compute. reflexivity. Qed.

Lemma to_ldk_hint_from_ldk_hint_witness :
  forallb (@canonical_hop example_secp) (ldk_hops (mkLdkRouteHint [ldk_hop_via node_a 7; ldk_hop_via node_b 8])) = true /\
  @to_ldk_hint example_secp (from_ldk_hint (mkLdkRouteHint [ldk_hop_via node_a 7; ldk_hop_via node_b 8])) =
  Ok (mkLdkRouteHint [ldk_hop_via node_a 7; ldk_hop_via node_b 8]).
Proof.
  assert (Hc : forallb (@canonical_hop example_secp)
                 (ldk_hops (mkLdkRouteHint [ldk_hop_via node_a 7; ldk_hop_via node_b 8])) = true)
    by (vm_compute; reflexivity).
  exact (conj Hc (@to_ldk_hint_from_ldk_hint example_secp _ Hc)).
Defined.

Lemma parse_invoice_error_kinds_witness :
  @parse_invoice example_secp example_parser (of_ascii "x") = Err (Validation (FromParse Bech32Error)) /\
  ((exists c, Validation (FromParse Bech32Error) = Validation c) \/
   (Validation (FromParse Bech32Error) = Generic FromSystemTime /\
    exists signed, signed_from_str (Bolt11Parser := example_parser) (strip_lightning_scheme (of_ascii "x")) = Ok signed /\
                   raw_timestamp (data (raw_invoice signed)) < 0)).
Proof.
  assert (E : @parse_invoice example_secp example_parser (of_ascii "x") =
              Err (Validation (FromParse Bech32Error))) by (vm_compute; reflexivity).
  exact (conj E (@parse_invoice_error_kinds example_secp example_parser _ _ E)).
Defined.

Lemma parse_invoice_fields_witness :
  exists ln, @parse_invoice example_secp example_parser example_bolt11 = Ok ln /\
  exists signed, signed_from_str (Bolt11Parser := example_parser) (strip_lightning_scheme example_bolt11) = Ok signed /\
    let raw := raw_invoice signed in
    network ln = network_of_btc (btc_network_of_currency (currency (hrp raw))) /\
    amount_msat ln = option_map (fun v => v / 10) (raw_amount_pico (hrp raw)) /\
    timestamp ln = raw_timestamp (data raw) /\ 0 <= timestamp ln /\
    expiry ln = match raw_expiry_time raw with Some e => e | None => 3600 end /\
    min_final_cltv_expiry_delta ln =
      match raw_min_final_cltv_expiry_delta raw with Some d => d | None => 18 end /\
    (exists ph, raw_payment_hash raw = Some ph /\ payment_hash ln = encode_hex ph) /\
    (exists ps, raw_payment_secret raw = Some ps /\ payment_secret ln = ps) /\
    routing_hints ln = map from_ldk_hint (raw_private_routes raw).
Proof.
  destruct (@parse_invoice example_secp example_parser example_bolt11) as [ln|e] eqn:E.
  - exists ln. split; [reflexivity|]. exact (@parse_invoice_fields example_secp example_parser _ _ E).
  - vm_compute in E. discriminate.
Defined.

Lemma parse_invoice_hints_round_trip_witness :
  signed_from_str (Bolt11Parser := example_parser) (strip_lightning_scheme example_bolt11) = Ok example_signed /\
  (exists ln, @parse_invoice example_secp example_parser example_bolt11 = Ok ln /\
    forallb (fun h => forallb (@canonical_hop example_secp) (ldk_hops h))
      (raw_private_routes (raw_invoice example_signed)) = true /\
    map (@to_ldk_hint example_secp) (routing_hints ln) = map Ok (raw_private_routes (raw_invoice example_signed))).
Proof.
  assert (Hs : signed_from_str (Bolt11Parser := example_parser) (strip_lightning_scheme example_bolt11)
               = Ok example_signed) by reflexivity.
  assert (Hc : forallb (fun h => forallb (@canonical_hop example_secp) (ldk_hops h))
                 (raw_private_routes (raw_invoice example_signed)) = true) by (vm_compute; reflexivity).
  split; [exact Hs|].
  destruct (@parse_invoice example_secp example_parser example_bolt11) as [ln|e] eqn:E.
  - exists ln. split; [reflexivity|]. split; [exact Hc|].
    exact (@parse_invoice_hints_round_trip example_secp example_parser _ _ _ Hs E Hc).
  - vm_compute in E. discriminate.
Defined.

Lemma add_lsp_routing_hints_error_kinds_witness :
  @add_lsp_routing_hints example_secp example_parser example_bolt11 true
    (Some (test_lsp_hint (of_ascii "zz") 144)) 100 = Err (Generic (FromSecp InvalidPublicKey)) /\
  let e := Generic (FromSecp InvalidPublicKey) in
  (exists pe, e = Validation (FromParse pe)) \/
  (exists se, e = Validation (FromSemantic se)) \/
  e = Generic (FromSecp InvalidPublicKey) \/
  e = Generic (FromCreation DescriptionTooLong) \/
  e = Generic (FromCreation TimestampOutOfBounds) \/
  e = Generic (FromCreation RouteTooLong).
Proof.
  assert (E : @add_lsp_routing_hints example_secp example_parser example_bolt11 true
    (Some (test_lsp_hint (of_ascii "zz") 144)) 100 = Err (Generic (FromSecp InvalidPublicKey)))
    by (vm_compute; reflexivity).
  exact (conj E (@add_lsp_routing_hints_error_kinds example_secp example_parser _ _ _ _ _ E)).
Defined.

Lemma add_lsp_routing_hints_ok_iff_witness :
  0 <= 100 <= U64_MAX / 10 /\
  signed_from_str (Bolt11Parser := example_parser) example_bolt11 = Ok example_signed /\
  @from_signed example_secp example_parser example_signed = Ok (mkInvoice example_signed) /\
  @merge_hints example_secp (invoice_route_hints (mkInvoice example_signed)) true (Some node_a_lsp) =
    Ok [mkLdkRouteHint [ldk_hop_via node_b 8];
        mkLdkRouteHint [mkLdkRouteHintHop node_a 1234 (mkRoutingFees 1000 100) 2000 (Some 3000) (Some 4000)]] /\
  ((exists raw, @add_lsp_routing_hints example_secp example_parser example_bolt11 true (Some node_a_lsp) 100 = Ok raw) <->
   (0 <= invoice_timestamp (mkInvoice example_signed) <= MAX_TIMESTAMP /\
    match invoice_description (mkInvoice example_signed) with
    | Direct d => (str_len d <= 639)%nat
    | Hash _ => True
    end /\
    Forall (fun h => (List.length (ldk_hops h) <= 12)%nat)
      [mkLdkRouteHint [ldk_hop_via node_b 8];
       mkLdkRouteHint [mkLdkRouteHintHop node_a 1234 (mkRoutingFees 1000 100) 2000 (Some 3000) (Some 4000)]])).
Proof.
  assert (Hs : signed_from_str (Bolt11Parser := example_parser) example_bolt11 = Ok example_signed)
    by reflexivity.
  assert (Hf : @from_signed example_secp example_parser example_signed = Ok (mkInvoice example_signed))
    by (vm_compute; reflexivity).
  assert (Hm : @merge_hints example_secp (invoice_route_hints (mkInvoice example_signed)) true (Some node_a_lsp) =
    Ok [mkLdkRouteHint [ldk_hop_via node_b 8];
        mkLdkRouteHint [mkLdkRouteHintHop node_a 1234 (mkRoutingFees 1000 100) 2000 (Some 3000) (Some 4000)]])
    by (vm_compute; reflexivity).
  assert (Ha : 0 <= 100 <= U64_MAX / 10) by (split; vm_compute; discriminate).
  exact (conj Ha (conj Hs (conj Hf (conj Hm
    (@add_lsp_routing_hints_ok_iff example_secp example_parser _ _ _ _ _ _ Ha Hs Hf Hm))))).
Defined.

Lemma add_lsp_routing_hints_long_lsp_hint_witness :
  0 <= 100 <= U64_MAX / 10 /\
  signed_from_str (Bolt11Parser := example_parser) example_bolt11 = Ok example_signed /\
  @from_signed example_secp example_parser example_signed = Ok (mkInvoice example_signed) /\
  (12 < List.length (hops long_lsp_hint))%nat /\
  Forall (fun hop => exists k, @pubkey_from_str example_secp (src_node_id hop) = Ok k) (hops long_lsp_hint) /\
  @add_lsp_routing_hints example_secp example_parser example_bolt11 false (Some long_lsp_hint) 100 =
    Err (Generic (FromCreation RouteTooLong)).
Proof.
  assert (Hs : signed_from_str (Bolt11Parser := example_parser) example_bolt11 = Ok example_signed)
    by reflexivity.
  assert (Hf : @from_signed example_secp example_parser example_signed = Ok (mkInvoice example_signed))
    by (vm_compute; reflexivity).
  assert (Hl : (12 < List.length (hops long_lsp_hint))%nat) by (vm_compute; reflexivity).
  assert (Hk : Forall (fun hop => exists k, @pubkey_from_str example_secp (src_node_id hop) = Ok k)
                 (hops long_lsp_hint)).
  { apply Forall_forall. intros hop Hin. apply repeat_spec in Hin. subst hop.
    exists node_a. vm_compute. reflexivity. }
  assert (Ha : 0 <= 100 <= U64_MAX / 10) by (split; vm_compute; discriminate).
  exact (conj Ha (conj Hs (conj Hf (conj Hl (conj Hk
    (@add_lsp_routing_hints_long_lsp_hint example_secp example_parser _ _ _ _ _ Ha Hs Hf Hl Hk)))))).
Defined.

Lemma add_lsp_routing_hints_drops_fields_witness :
  exists raw,
    @add_lsp_routing_hints example_secp example_parser example_bolt11 true (Some node_a_lsp) 100 = Ok raw /\
    raw_payee_pub_key raw = None /\ raw_features raw = Some [8; 14] /\ raw_fallbacks raw = [].
Proof.
  destruct (@add_lsp_routing_hints example_secp example_parser example_bolt11 true (Some node_a_lsp) 100)
    as [raw|e] eqn:E.
  - exists raw. split; [reflexivity|].
    exact (@add_lsp_routing_hints_drops_fields example_secp example_parser _ _ _ _ _ E).
  - vm_compute in E. discriminate.
Defined.
